(** * HTGS: edge descriptors and the CUDA task binding

    A shallow embedding of three pieces of the HTGS task-graph runtime:

    - [ICudaTask] (htgs/api/ICudaTask.hpp): the constructor, [requiresCopy],
      [hasPeerToPeerCopy], [autoCopy] and [initialize];
    - [MemoryEdge] (htgs/core/graph/edge/MemoryEdge.hpp): [applyEdge], [copy];
    - [RuleEdge] (htgs/core/graph/edge/RuleEdge.hpp): [applyEdge], [copy].

    C++ objects reached through pointers live in explicit stores (finite maps
    from addresses to object states); member functions are state transformers
    in a small state-and-exception monad.  Calls into the CUDA runtime are
    recorded, in order, in a trace. *)

From Stdlib Require Import ZArith NArith String DecimalString Lia.
From stdpp Require Import base option list gmap strings.

Set Default Proof Using "Type".
Local Open Scope string_scope.

(** ** Outcomes and the state monad *)

(** What a member function call can end in: a normal return, a failure that
    carries the text of the error ([std::runtime_error::what()], or the text
    of a failed assertion), or behaviour the C++ standard leaves undefined
    (a read through a null or out-of-bounds pointer). *)
Inductive Outcome (A : Type) : Type :=
| Ok (a : A)
| Throw (what : string)
| Undefined.
Arguments Ok {A} a.
Arguments Throw {A} what.
Arguments Undefined {A}.

Definition M (S A : Type) : Type := S -> Outcome A * S.

Definition ret {S A} (a : A) : M S A := fun s => (Ok a, s).

Definition bind {S A B} (m : M S A) (k : A -> M S B) : M S B :=
  fun s =>
    match m s with
    | (Ok a, s') => k a s'
    | (Throw what, s') => (Throw what, s')
    | (Undefined, s') => (Undefined, s')
    end.

Definition throw {S A} (what : string) : M S A := fun s => (Throw what, s).
Definition undefined {S A} : M S A := fun s => (Undefined, s).
Definition get {S} : M S S := fun s => (Ok s, s).
Definition modify {S} (f : S -> S) : M S unit := fun s => (Ok tt, f s).

(** A read that is defined only when the option is [Some]. *)
Definition defined {S A} (o : option A) : M S A :=
  match o with Some a => ret a | None => undefined end.

Notation "x <- m ;; k" := (bind m (fun x => k))
  (at level 100, m at next level, right associativity).
Notation "m ;; k" := (bind m (fun _ => k))
  (at level 100, right associativity).

(** C++ [std::to_string] on an integer. *)
Definition to_string (z : Z) : string := NilZero.string_of_int (Z.to_int z).

(** ** ICudaTask *)

Module Cuda.

Definition cudaStream_t := N.
Definition devptr := N.
Bind Scope N_scope with cudaStream_t devptr.

(** [size_t] is 64 bits wide. *)
Definition SIZE_MAX1 : Z := 2 ^ 64.
Definition to_size_t (z : Z) : N := Z.to_N (z mod SIZE_MAX1).

(** Calls that leave the task: the CUDA runtime API, and the user's
    [initializeCudaGPU] hook. *)
Inductive CudaCall : Type :=
| cudaGetDeviceCount
| cudaSetDevice (device : Z)
| cudaStreamCreate
| cudaDeviceCanAccessPeer (device peerDevice : Z)
| cudaDeviceEnablePeerAccess (peerDevice : Z) (flags : Z)
| cudaMemcpyPeerAsync (dst : devptr) (dstDevice : Z)
                      (src : devptr) (srcDevice : Z)
                      (count : N) (stream : cudaStream_t)
| initializeCudaGPU.

(** What the CUDA runtime answers: the device count, the peer-access matrix
    (the [int] written to [canAccess]) and the handle of the stream that
    [cudaStreamCreate] hands out. *)
Record CudaRuntime : Type := {
  deviceCount : Z;
  canAccessPeer : Z -> Z -> Z;
  newStream : cudaStream_t
}.

(** The private fields of [ICudaTask], and [pipelineId] of its [ITask] base. *)
Record ICudaTask : Type := {
  pipelineId : N;
  stream : cudaStream_t;
  cudaIds : list Z;
  numGpus : N;
  cudaId : Z;
  nonPeerDevIds : list Z;
  autoEnablePeerAccess : bool
}.

(** Assignments to single fields. *)
Definition set_cudaId (id : Z) (t : ICudaTask) : ICudaTask :=
  {| pipelineId := pipelineId t; stream := stream t; cudaIds := cudaIds t;
     numGpus := numGpus t; cudaId := id; nonPeerDevIds := nonPeerDevIds t;
     autoEnablePeerAccess := autoEnablePeerAccess t |}.

Definition set_stream (st : cudaStream_t) (t : ICudaTask) : ICudaTask :=
  {| pipelineId := pipelineId t; stream := st; cudaIds := cudaIds t;
     numGpus := numGpus t; cudaId := cudaId t;
     nonPeerDevIds := nonPeerDevIds t;
     autoEnablePeerAccess := autoEnablePeerAccess t |}.

Definition set_nonPeerDevIds (v : list Z) (t : ICudaTask) : ICudaTask :=
  {| pipelineId := pipelineId t; stream := stream t; cudaIds := cudaIds t;
     numGpus := numGpus t; cudaId := cudaId t; nonPeerDevIds := v;
     autoEnablePeerAccess := autoEnablePeerAccess t |}.

(** [this->nonPeerDevIds.push_back(peerId)] *)
Definition push_back_nonPeerDevIds (peerId : Z) (t : ICudaTask) : ICudaTask :=
  set_nonPeerDevIds (nonPeerDevIds t ++ [peerId]) t.

(** The storage the constructor runs on.  Fields the constructor does not
    assign keep whatever the storage held. *)
Record Storage : Type := {
  raw_pipelineId : N;
  raw_stream : cudaStream_t;
  raw_cudaId : Z;
  raw_autoEnablePeerAccess : bool
}.

(** [ICudaTask(int *cudaIds, size_t numGpus, bool autoEnablePeerAccess = true)]:
    the body assigns [cudaIds] and [numGpus]; [nonPeerDevIds] is
    default-constructed (empty vector). *)
Definition ICudaTask_ctor (raw : Storage) (cudaIds : list Z) (numGpus : N)
    (autoEnablePeerAccess : bool) : ICudaTask :=
  {| pipelineId := raw_pipelineId raw;
     stream := raw_stream raw;
     cudaIds := cudaIds;
     numGpus := numGpus;
     cudaId := raw_cudaId raw;
     nonPeerDevIds := [];
     autoEnablePeerAccess := raw_autoEnablePeerAccess raw |}.

(** The constructor called without its third argument. *)
Definition ICudaTask_ctor_default (raw : Storage) (cudaIds : list Z)
    (numGpus : N) : ICudaTask :=
  ICudaTask_ctor raw cudaIds numGpus true.

(** Modelled from the spec: [MemoryData<V>] is only forward-declared in
    [ICudaTask.hpp].  Section 3: it owns a buffer ([get()]) and carries the
    id of the pipeline it belongs to ([getPipelineId()]). *)
Record MemoryData : Type := {
  getPipelineId : N;
  get_ : devptr
}.

(** A task together with the calls issued so far. *)
Record Machine : Type := {
  this : ICudaTask;
  trace : list CudaCall
}.

Definition call (c : CudaCall) : M Machine unit :=
  modify (fun m => {| this := this m; trace := trace m ++ [c] |}).

Definition update (f : ICudaTask -> ICudaTask) : M Machine unit :=
  modify (fun m => {| this := f (this m); trace := trace m |}).

Definition field {A} (f : ICudaTask -> A) : M Machine A :=
  fun m => (Ok (f (this m)), m).

(** [a[i]] on an [int *] that points at the elements of [a]: reading past
    the end is undefined. *)
Definition array_read (a : list Z) (i : N) : option Z :=
  if (i <? N.of_nat (length a))%N then a !! N.to_nat i else None.

(** [std::find(v.begin(), v.end(), x) != v.end()] *)
Fixpoint find_ne_end (v : list Z) (x : Z) : bool :=
  match v with
  | [] => false
  | y :: v' => if (y =? x)%Z then true else find_ne_end v' x
  end.

(** [bool requiresCopy(size_t pipelineId)].  [std::find] takes the value
    it looks for by reference: [cudaIds[pipelineId]] is loaded when it is
    compared with an element of [nonPeerDevIds], so nothing is read when
    that vector is empty. *)
Definition requiresCopy (pipelineId : N) : M Machine bool :=
  ids <- field cudaIds ;;
  v <- field nonPeerDevIds ;;
  match v with
  | [] => ret false
  | _ :: _ =>
      id <- defined (array_read ids pipelineId) ;;
      ret (find_ne_end v id)
  end.

(** [bool requiresCopy(std::shared_ptr<MemoryData<V>> data)] *)
Definition requiresCopy_data (data : MemoryData) : M Machine bool :=
  requiresCopy (getPipelineId data).

(** [bool hasPeerToPeerCopy(size_t pipelineId)] *)
Definition hasPeerToPeerCopy (pipelineId : N) : M Machine bool :=
  id <- field cudaId ;;
  b <- requiresCopy (to_size_t id) ;;
  ret (negb b).

(** [bool autoCopy(V *destination, std::shared_ptr<MemoryData<V>> data,
    long numElems)]; [sizeofV] is [sizeof(V)], and the byte count is computed
    in [size_t]. *)
Definition autoCopy (sizeofV : N) (destination : devptr) (data : MemoryData)
    (numElems : Z) : M Machine bool :=
  b <- requiresCopy_data data ;;
  if b then
    id <- field cudaId ;;
    ids <- field cudaIds ;;
    src <- defined (array_read ids (getPipelineId data)) ;;
    st <- field stream ;;
    call (cudaMemcpyPeerAsync destination id (get_ data) src
            (to_size_t (Z.of_N sizeofV * numElems)) st) ;;
    ret true
  else ret false.

(** Modelled from the spec: the macro [HTGS_ASSERT(condition, message)] is
    used by [initialize] but defined in a header that is not part of the
    sources at hand.  Section 7 of the specification says a CUDA id out of
    range fails fast with a descriptive runtime error at [initialize] time:
    a false condition ends the call with the message, a true one does
    nothing. *)
Definition HTGS_ASSERT {S} (condition : bool) (message : string) : M S unit :=
  if condition then ret tt else throw message.

Definition assert_message (cudaId numGpus : Z) : string :=
  "Error: Cuda ID: " ++ to_string cudaId
    ++ " is larger than the number of GPUs: " ++ to_string numGpus.

(** The body of the [for] loop of [initialize], at index [i]. *)
Definition probe (rt : CudaRuntime) (i : N) : M Machine unit :=
  ids <- field cudaIds ;;
  peerId <- defined (array_read ids i) ;;
  id <- field cudaId ;;
  if (peerId =? id)%Z then ret tt
  else
    call (cudaDeviceCanAccessPeer id peerId) ;;
    if (canAccessPeer rt id peerId =? 0)%Z then
      update (push_back_nonPeerDevIds peerId)
    else call (cudaDeviceEnablePeerAccess peerId 0).

(** [for (size_t i = ...; i < this->numGpus; i++)], with [n] iterations
    left to run. *)
Fixpoint probe_loop (rt : CudaRuntime) (i : N) (n : nat) : M Machine unit :=
  match n with
  | O => ret tt
  | S n' => probe rt i ;; probe_loop rt (N.succ i) n'
  end.

(** [void initialize() override final] *)
Definition initialize (rt : CudaRuntime) : M Machine unit :=
  ids <- field cudaIds ;;
  pid <- field pipelineId ;;
  id <- defined (array_read ids pid) ;;
  update (set_cudaId id) ;;
  call cudaGetDeviceCount ;;
  let numGpus_local := deviceCount rt in
  HTGS_ASSERT (id <? numGpus_local)%Z (assert_message id numGpus_local) ;;
  call (cudaSetDevice id) ;;
  call cudaStreamCreate ;;
  update (set_stream (newStream rt)) ;;
  flag <- field autoEnablePeerAccess ;;
  (if flag then
     n <- field numGpus ;;
     probe_loop rt 0 (N.to_nat n)
   else ret tt) ;;
  call initializeCudaGPU.

(** A task on which nothing has been called yet. *)
Definition start (t : ICudaTask) : Machine := {| this := t; trace := [] |}.

End Cuda.

(** ** The task graph: tasks, connectors, task managers, edges *)

Module Graph.

(** Objects are named by their address; a pointer is an address or
    [nullptr]. *)
Definition addr := N.
Bind Scope N_scope with addr.
Definition ptr := option addr.
Definition nullptr : ptr := None.

(** Modelled from the spec: [MMType] is declared in a header that is not
    part of the sources at hand.  Section 4.4 of the specification names the
    policy variants of a memory manager: Static, Dynamic and UserManaged. *)
Inductive MMType : Type := Static | Dynamic | UserManaged.

(** Modelled from the spec: [Connector<T>] is declared in a header that is
    not part of the sources at hand.  Section 3 of the specification: an
    ordered FIFO of records that carries [producerCount] (a non-negative
    integer) and a [terminated] flag; at build time the count is the number
    of producers attached so far, so a new connector has none. *)
Record Connector : Type := {
  queue : list N;
  producerCount : N;
  terminated : bool
}.

Definition Connector_new : Connector :=
  {| queue := []; producerCount := 0; terminated := false |}.

(** Modelled from the spec: [Connector::incrementInputTaskCount()] adds one
    producer to the count (section 4.1). *)
Definition Connector_incrementInputTaskCount (c : Connector) : Connector :=
  {| queue := queue c; producerCount := N.succ (producerCount c);
     terminated := terminated c |}.

(** Modelled from the spec: what a task holds under the name of a memory
    edge attached to it, namely the arguments of [attachMemoryEdge]: the
    connector to get memory from, the connector to release memory to, and
    the type of the memory manager. *)
Record AttachedMemoryEdge : Type := {
  getMemoryConnector : ptr;
  releaseMemoryConnector : ptr;
  attachedType : MMType
}.

(** Modelled from the spec: [RuleScheduler<T,U>] is declared in a header
    that is not part of the sources at hand.  Section 4.3: a rule scheduler
    holds one rule (here the address the [std::shared_ptr<IRule>] holds) and
    one output connector. *)
Record RuleScheduler : Type := {
  rs_rule : ptr;
  rs_outputConnector : ptr
}.

(** Modelled from the spec: the classes derived from [AnyITask] that the
    edges name.  Section 3: the state of a [Bookkeeper] is an ordered list
    of rule schedulers; section 4.4: a [MemoryManager] has a type. *)
Inductive Derived : Type :=
| UserTask
| Bookkeeper (ruleSchedulers : list RuleScheduler)
| MemoryManager (type : MMType).

(** Modelled from the spec: [AnyITask] is declared in a header that is not
    part of the sources at hand.  A task has a name ([getName]) and the
    memory edges attached to it, one per edge name (section 4.5: a memory
    edge name is unique per task). *)
Record AnyITask : Type := {
  getName : string;
  memoryEdges : gmap string AttachedMemoryEdge;
  derived : Derived
}.

(** Modelled from the spec: [AnyITask::hasMemoryEdge(name)] tells whether a
    memory edge of that name is attached to the task. *)
Definition hasMemoryEdge (t : AnyITask) (name : string) : bool :=
  bool_decide (is_Some (memoryEdges t !! name)).

(** Modelled from the spec: [AnyITask::attachMemoryEdge(name, getConnector,
    releaseConnector, type)] attaches the named edge to the task. *)
Definition attachMemoryEdge (t : AnyITask) (name : string)
    (getConnector releaseConnector : ptr) (type : MMType) : AnyITask :=
  {| getName := getName t;
     memoryEdges :=
       <[name := {| getMemoryConnector := getConnector;
                    releaseMemoryConnector := releaseConnector;
                    attachedType := type |}]> (memoryEdges t);
     derived := derived t |}.

(** Modelled from the spec: a [TaskManager] (in [RuleEdge.hpp]:
    [TaskScheduler]) wraps one task and holds its input and its output
    connector (section 4.2); both are [nullptr] until an edge sets them. *)
Record TaskManager : Type := {
  getTaskFunction : addr;
  getInputConnector : ptr;
  getOutputConnector : ptr
}.

(** Modelled from the spec: a task manager as the graph builds it for
    [task], and its two setters. *)
Definition TaskManager_new (task : addr) : TaskManager :=
  {| getTaskFunction := task; getInputConnector := nullptr;
     getOutputConnector := nullptr |}.

Definition setInputConnector (c : ptr) (tm : TaskManager) : TaskManager :=
  {| getTaskFunction := getTaskFunction tm; getInputConnector := c;
     getOutputConnector := getOutputConnector tm |}.

Definition setOutputConnector (c : ptr) (tm : TaskManager) : TaskManager :=
  {| getTaskFunction := getTaskFunction tm;
     getInputConnector := getInputConnector tm; getOutputConnector := c |}.

(** Modelled from the spec: [AnyTaskGraphConf] (in [RuleEdge.hpp]:
    [AnyTaskGraph]) is declared in a header that is not part of the sources
    at hand.  Section 3: a graph holds a map from task pointer to the task
    manager of that task; section 4.6: a deep copy builds a map from each
    original task to its clone. *)
Record AnyTaskGraphConf : Type := {
  taskManagers : gmap addr TaskManager;
  taskCopyMap : gmap addr addr
}.

(** Modelled from the spec: [hasTask(task)] tells whether the task is in the
    graph's task set. *)
Definition hasTask (g : AnyTaskGraphConf) (task : ptr) : bool :=
  match task with
  | Some a => bool_decide (is_Some (taskManagers g !! a))
  | None => false
  end.

(** Modelled from the spec: [getCopy(task)] looks the clone of [task] up in
    the map from originals to clones; a task without a clone, and
    [nullptr], give [nullptr]. *)
Definition getCopy (g : AnyTaskGraphConf) (task : ptr) : ptr :=
  a ← task; taskCopyMap g !! a.

(** The objects alive at one moment. *)
Record World : Type := {
  tasks : gmap addr AnyITask;
  connectors : gmap addr Connector;
  graphs : gmap addr AnyTaskGraphConf
}.

Definition set_tasks (f : gmap addr AnyITask -> gmap addr AnyITask)
    (w : World) : World :=
  {| tasks := f (tasks w); connectors := connectors w; graphs := graphs w |}.

Definition set_connectors (f : gmap addr Connector -> gmap addr Connector)
    (w : World) : World :=
  {| tasks := tasks w; connectors := f (connectors w); graphs := graphs w |}.

Definition set_graphs
    (f : gmap addr AnyTaskGraphConf -> gmap addr AnyTaskGraphConf)
    (w : World) : World :=
  {| tasks := tasks w; connectors := connectors w; graphs := f (graphs w) |}.

Definition set_taskManagers
    (f : gmap addr TaskManager -> gmap addr TaskManager)
    (g : AnyTaskGraphConf) : AnyTaskGraphConf :=
  {| taskManagers := f (taskManagers g); taskCopyMap := taskCopyMap g |}.

(** Reads through a pointer: undefined on [nullptr] and on the address of
    no live object. *)
Definition deref {A} (store : World -> gmap addr A) (p : ptr) : M World A :=
  w <- get ;; defined (a ← p; store w !! a).

Definition addr_of (p : ptr) : M World addr := defined p.

(** [std::shared_ptr<Connector<T>>(new Connector<T>())]: a new connector at
    an address no live connector has. *)
Definition new_Connector : M World addr :=
  w <- get ;;
  let a := fresh (dom (connectors w)) in
  modify (set_connectors <[a := Connector_new]>) ;;
  ret a.

(** The last [shared_ptr] to a connector goes out of scope. *)
Definition release_Connector (a : addr) : M World unit :=
  modify (set_connectors (delete a)).

(** [connector->incrementInputTaskCount()] *)
Definition incrementInputTaskCount (a : addr) : M World unit :=
  c <- deref connectors (Some a) ;;
  modify (set_connectors <[a := Connector_incrementInputTaskCount c]>).

(** A task manager is reached through the graph that owns it and the task
    it wraps. *)
Record TaskManagerRef : Type := {
  ref_graph : addr;
  ref_task : addr
}.

Definition read_TaskManager (r : TaskManagerRef) : M World TaskManager :=
  g <- deref graphs (Some (ref_graph r)) ;;
  defined (taskManagers g !! ref_task r).

Definition write_TaskManager (r : TaskManagerRef)
    (f : TaskManager -> TaskManager) : M World unit :=
  g <- deref graphs (Some (ref_graph r)) ;;
  tm <- defined (taskManagers g !! ref_task r) ;;
  modify (set_graphs
    <[ref_graph r := set_taskManagers <[ref_task r := f tm]> g]>).

(** Modelled from the spec: [graph->getTaskManager(task)] (in
    [RuleEdge.hpp]: [getTaskScheduler]) gives the task manager the graph
    holds for the task; section 9: the wrapper is built when an edge first
    asks for it. *)
Definition getTaskManager (graph task : ptr) : M World TaskManagerRef :=
  ga <- addr_of graph ;;
  g <- deref graphs graph ;;
  ta <- addr_of task ;;
  match taskManagers g !! ta with
  | Some _ => ret {| ref_graph := ga; ref_task := ta |}
  | None =>
      modify (set_graphs
        <[ga := set_taskManagers <[ta := TaskManager_new ta]> g]>) ;;
      ret {| ref_graph := ga; ref_task := ta |}
  end.

(** Modelled from the spec: [memoryManager->getType()] gives the policy
    variant of the memory manager (section 4.4). *)
Definition getType (memoryManager : ptr) : M World MMType :=
  t <- deref tasks memoryManager ;;
  match derived t with
  | MemoryManager type => ret type
  | _ => undefined
  end.

(** Modelled from the spec: [bookkeeper->addRuleScheduler(ruleScheduler)]
    appends to the bookkeeper's rule schedulers; section 3, the state of a
    bookkeeper is an ordered list of rule schedulers. *)
Definition addRuleScheduler (bookkeeper : ptr) (rs : RuleScheduler)
    : M World unit :=
  a <- addr_of bookkeeper ;;
  t <- deref tasks bookkeeper ;;
  match derived t with
  | Bookkeeper l =>
      modify (set_tasks
        <[a := {| getName := getName t; memoryEdges := memoryEdges t;
                  derived := Bookkeeper (l ++ [rs]) |}]>)
  | _ => undefined
  end.

(** *** MemoryEdge *)

Record MemoryEdge : Type := {
  memoryEdgeName : string;
  getMemoryTask : ptr;
  memoryManager : ptr
}.

Definition already_has_edge (taskName edgeName : string) : string :=
  "Error getMemoryTask: " ++ taskName ++ " already has the memory edge: "
    ++ edgeName.

Definition must_be_added (taskName : string) : string :=
  "Error getMemoryTask: " ++ taskName
    ++ " must be added to the graph you are connecting the memory edge too.".

Definition already_connected (taskName : string) : string :=
  "Error memory manager: " ++ taskName
    ++ " is already connected to the graph! Are you trying to reuse the same memory manager instance?".

(** [void MemoryEdge<T>::applyEdge(AnyTaskGraphConf *graph)], without the
    [WS_PROFILE] block.  The two connectors are held by local
    [std::shared_ptr]s, so a [throw] after their creation destroys them
    again, in reverse order of construction.  [attachMemoryEdge] acts on the
    task as it is at that moment, hence the second read of the task. *)
Definition MemoryEdge_applyEdge (e : MemoryEdge) (graph : ptr)
    : M World unit :=
  t <- deref tasks (getMemoryTask e) ;;
  if hasMemoryEdge t (memoryEdgeName e) then
    throw (already_has_edge (getName t) (memoryEdgeName e))
  else
  g <- deref graphs graph ;;
  if negb (hasTask g (getMemoryTask e)) then
    throw (must_be_added (getName t))
  else
  memTaskManager <- getTaskManager graph (memoryManager e) ;;
  getMemoryConnector <- new_Connector ;;
  releaseMemoryConnector <- new_Connector ;;
  tm <- read_TaskManager memTaskManager ;;
  if bool_decide (getInputConnector tm ≠ nullptr) then
    release_Connector releaseMemoryConnector ;;
    release_Connector getMemoryConnector ;;
    throw (already_connected (getName t))
  else
  if bool_decide (getOutputConnector tm ≠ nullptr) then
    release_Connector releaseMemoryConnector ;;
    release_Connector getMemoryConnector ;;
    throw (already_connected (getName t))
  else
  write_TaskManager memTaskManager
    (setInputConnector (Some releaseMemoryConnector)) ;;
  write_TaskManager memTaskManager
    (setOutputConnector (Some getMemoryConnector)) ;;
  incrementInputTaskCount getMemoryConnector ;;
  incrementInputTaskCount releaseMemoryConnector ;;
  type <- getType (memoryManager e) ;;
  ta <- addr_of (getMemoryTask e) ;;
  t' <- deref tasks (getMemoryTask e) ;;
  modify (set_tasks
    <[ta := attachMemoryEdge t' (memoryEdgeName e)
              (Some getMemoryConnector) (Some releaseMemoryConnector) type]>).

(** [EdgeDescriptor *MemoryEdge<T>::copy(AnyTaskGraphConf *graph)] *)
Definition MemoryEdge_copy (e : MemoryEdge) (graph : ptr)
    : M World MemoryEdge :=
  g <- deref graphs graph ;;
  ret {| memoryEdgeName := memoryEdgeName e;
         getMemoryTask := getCopy g (getMemoryTask e);
         memoryManager := getCopy g (memoryManager e) |}.

(** *** RuleEdge *)

Record RuleEdge : Type := {
  bookkeeper : ptr;
  rule : ptr;
  consumer : ptr
}.

(** [void RuleEdge<T,U,W>::applyEdge(AnyTaskGraph *graph)];
    [getTaskScheduler] is the older name of [getTaskManager]. *)
Definition RuleEdge_applyEdge (e : RuleEdge) (graph : ptr) : M World unit :=
  getTaskManager graph (bookkeeper e) ;;
  consumerTaskScheduler <- getTaskManager graph (consumer e) ;;
  tm <- read_TaskManager consumerTaskScheduler ;;
  connector <-
    match getInputConnector tm with
    | None => new_Connector
    | Some c => ret c
    end ;;
  let ruleScheduler :=
    {| rs_rule := rule e; rs_outputConnector := Some connector |} in
  incrementInputTaskCount connector ;;
  write_TaskManager consumerTaskScheduler
    (setInputConnector (Some connector)) ;;
  addRuleScheduler (bookkeeper e) ruleScheduler.

(** [EdgeDescriptor *RuleEdge<T,U,W>::copy(AnyTaskGraph *graph)] *)
Definition RuleEdge_copy (e : RuleEdge) (graph : ptr) : M World RuleEdge :=
  g <- deref graphs graph ;;
  ret {| bookkeeper := getCopy g (bookkeeper e);
         rule := rule e;
         consumer := getCopy g (consumer e) |}.

(** *** EdgeDescriptor *)

(** The two subclasses of [EdgeDescriptor] at hand; [applyEdge] and [copy]
    are virtual. *)
Inductive EdgeDescriptor : Type :=
| IsMemoryEdge (e : MemoryEdge)
| IsRuleEdge (e : RuleEdge).

Definition applyEdge (d : EdgeDescriptor) (graph : ptr) : M World unit :=
  match d with
  | IsMemoryEdge e => MemoryEdge_applyEdge e graph
  | IsRuleEdge e => RuleEdge_applyEdge e graph
  end.

Definition copy (d : EdgeDescriptor) (graph : ptr) : M World EdgeDescriptor :=
  match d with
  | IsMemoryEdge e => e' <- MemoryEdge_copy e graph ;; ret (IsMemoryEdge e')
  | IsRuleEdge e => e' <- RuleEdge_copy e graph ;; ret (IsRuleEdge e')
  end.

(** Edges applied one after the other to one graph. *)
Fixpoint applyEdges (ds : list EdgeDescriptor) (graph : ptr) : M World unit :=
  match ds with
  | [] => ret tt
  | d :: ds' => applyEdge d graph ;; applyEdges ds' graph
  end.

End Graph.

Import Cuda Graph.
Local Close Scope string_scope.

(** ** Observations and properties *)

(** The calls one turn of the probing loop issues for [peer] on a task
    bound to [id]. *)
Definition probe_calls (rt : CudaRuntime) (id peer : Z) : list CudaCall :=
  if (peer =? id)%Z then []
  else cudaDeviceCanAccessPeer id peer
       :: (if (canAccessPeer rt id peer =? 0)%Z then []
           else [cudaDeviceEnablePeerAccess peer 0]).

(** [peer] is another GPU than [id], and [id] was denied access to it. *)
Definition denied (rt : CudaRuntime) (id peer : Z) : bool :=
  negb (peer =? id)%Z && (canAccessPeer rt id peer =? 0)%Z.

(** A task as the constructor is meant to be called: [numGpus] is the
    number of entries of [cudaIds]. *)
Definition well_formed (t : ICudaTask) : Prop :=
  numGpus t = N.of_nat (length (cudaIds t)).

(** What [initialize] is to have achieved when it returns in [m'], having
    started on task [t]: the task is bound to GPU [cudaIds[pipelineId]], a
    stream was created, every other GPU of [cudaIds] was probed, and
    [nonPeerDevIds] holds exactly the other GPUs that denied access. *)
Definition initialized (rt : CudaRuntime) (t : ICudaTask) (m' : Machine)
    : Prop :=
  ∃ id,
    array_read (cudaIds t) (pipelineId t) = Some id ∧
    cudaId (this m') = id ∧
    cudaStreamCreate ∈ trace m' ∧
    stream (this m') = newStream rt ∧
    (∀ peer, peer ∈ cudaIds t → peer ≠ id →
             cudaDeviceCanAccessPeer id peer ∈ trace m') ∧
    (∀ peer, peer ∈ nonPeerDevIds (this m') ↔
             peer ∈ cudaIds t ∧ peer ≠ id ∧ canAccessPeer rt id peer = 0%Z).

(** What a world holds: the task manager a graph has for a task and its two
    connectors, the producer count of a connector, the memory edge attached
    to a task under a name, the type of a memory manager, the rule
    schedulers of a bookkeeper. *)
Definition taskManager_of (w : World) (graph task : addr)
    : option TaskManager :=
  g ← graphs w !! graph; taskManagers g !! task.

Definition inputConnector_of (w : World) (graph task : addr) : ptr :=
  tm ← taskManager_of w graph task; getInputConnector tm.

Definition outputConnector_of (w : World) (graph task : addr) : ptr :=
  tm ← taskManager_of w graph task; getOutputConnector tm.

Definition producerCount_of (w : World) (c : addr) : option N :=
  producerCount <$> connectors w !! c.

Definition memoryEdge_of (w : World) (task : addr) (name : string)
    : option AttachedMemoryEdge :=
  t ← tasks w !! task; memoryEdges t !! name.

Definition type_of (w : World) (task : addr) : option MMType :=
  t ← tasks w !! task;
  match derived t with MemoryManager type => Some type | _ => None end.

Definition ruleSchedulers_of (w : World) (task : addr)
    : option (list RuleScheduler) :=
  t ← tasks w !! task;
  match derived t with Bookkeeper l => Some l | _ => None end.

(** The graph at [ga] holds a task manager for [ta]: the one it had, or a
    new one. *)
Definition with_TaskManager (ga ta : addr) (g : AnyTaskGraphConf)
    (w : World) : World :=
  set_graphs
    <[ga := set_taskManagers
              <[ta := default (TaskManager_new ta) (taskManagers g !! ta)]>
              g]> w.

(** The rule scheduler that [RuleEdge::applyEdge] builds for connector
    [c]. *)
Definition scheduler_for (c : addr) (e : RuleEdge) : RuleScheduler :=
  {| rs_rule := rule e; rs_outputConnector := Some c |}.

(** Every error [m] can end in satisfies [P]. *)
Definition throws_only {S A} (P : string → Prop) (m : M S A) : Prop :=
  ∀ s what, (m s).1 = Throw what → P what.

(** ** Example inputs *)

(** Storage whose flag byte reads [true], and storage whose flag byte reads
    [false]. *)
Definition storage_holding_true : Storage :=
  {| raw_pipelineId := 0; raw_stream := 0; raw_cudaId := 0;
     raw_autoEnablePeerAccess := true |}.

Definition storage_holding_false : Storage :=
  {| raw_pipelineId := 0; raw_stream := 0; raw_cudaId := 0;
     raw_autoEnablePeerAccess := false |}.

(** A machine with two GPUs that cannot access each other. *)
Definition two_gpus_no_peer_access : CudaRuntime :=
  {| deviceCount := 2; canAccessPeer := fun _ _ => 0%Z; newStream := 1 |}.

(** An initialized task on GPU 0 that has no peer access to GPU 1. *)
Definition task_on_gpu0_without_peer1 : ICudaTask :=
  {| pipelineId := 0; stream := 9; cudaIds := [0; 1]%Z; numGpus := 2;
     cudaId := 0; nonPeerDevIds := [1%Z]; autoEnablePeerAccess := true |}.

(** A task of pipeline 1 that is to run on GPU 5. *)
Definition task_bound_to_gpu5 : ICudaTask :=
  {| pipelineId := 1; stream := 0; cudaIds := [0; 5]%Z; numGpus := 2;
     cudaId := 0; nonPeerDevIds := []; autoEnablePeerAccess := true |}.

(** A task constructed with the default arguments over GPUs 0 and 1. *)
Definition two_gpus_peer1_denied : ICudaTask :=
  ICudaTask_ctor_default storage_holding_true [0; 1]%Z 2.

(** A machine with three GPUs that cannot access one another, and a task
    that lists all three but counts two. *)
Definition three_gpus_no_peer_access : CudaRuntime :=
  {| deviceCount := 3; canAccessPeer := fun _ _ => 0%Z; newStream := 1 |}.

Definition task_counting_two_of_three_gpus : ICudaTask :=
  ICudaTask_ctor_default storage_holding_true [0; 1; 2]%Z 2.

(** A machine with two GPUs that can access each other, and
    [two_gpus_peer1_denied] as its [initialize] left it on the machine
    where they could not. *)
Definition two_gpus_with_peer_access : CudaRuntime :=
  {| deviceCount := 2; canAccessPeer := fun _ _ => 1%Z; newStream := 1 |}.

Definition task_initialized_without_peer1 : ICudaTask :=
  this (initialize two_gpus_no_peer_access (start two_gpus_peer1_denied)).2.

Definition a_task (name : string) (d : Derived) : AnyITask :=
  {| getName := name; memoryEdges := ∅; derived := d |}.

(** Tasks [T] (1), [MM] (2, a memory manager), [BK] (3, a bookkeeper) and
    [T2] (4); graph 10 holds [T], graph 11 holds [T2]; graph 10 carries the
    clone map of a deep copy. *)
Definition graph10 : AnyTaskGraphConf :=
  {| taskManagers := <[1%N := TaskManager_new 1]> ∅;
     taskCopyMap := <[1%N := 21%N]> (<[2%N := 22%N]> (<[3%N := 23%N]> ∅)) |}.

Definition graph11 : AnyTaskGraphConf :=
  {| taskManagers := <[4%N := TaskManager_new 4]> ∅; taskCopyMap := ∅ |}.

Definition two_graphs : World :=
  {| tasks :=
       <[1%N := a_task "T" UserTask]>
         (<[2%N := a_task "MM" (MemoryManager Static)]>
            (<[3%N := a_task "BK" (Bookkeeper [])]>
               (<[4%N := a_task "T2" UserTask]> ∅)));
     connectors := ∅;
     graphs := <[10%N := graph10]> (<[11%N := graph11]> ∅) |}.

Definition edge_m_T_MM : MemoryEdge :=
  {| memoryEdgeName := "m"; getMemoryTask := Some 1%N;
     memoryManager := Some 2%N |}.

Definition edge_n_T_MM : MemoryEdge :=
  {| memoryEdgeName := "n"; getMemoryTask := Some 1%N;
     memoryManager := Some 2%N |}.

(** [two_graphs] after [edge_m_T_MM] was applied to graph 10. *)
Definition two_graphs_m : World :=
  (MemoryEdge_applyEdge edge_m_T_MM (Some 10%N) two_graphs).2.

(** [T] as it is in [two_graphs_m], and the task manager of [MM] there. *)
Definition T_with_m : AnyITask :=
  attachMemoryEdge (a_task "T" UserTask) "m" (Some 0%N) (Some 1%N) Static.



(** Two rule edges from [BK] to [T], with different rules. *)
Definition rule_edge_BK_T : RuleEdge :=
  {| bookkeeper := Some 3%N; rule := Some 50%N; consumer := Some 1%N |}.

Definition rule_edge_BK_T_other_rule : RuleEdge :=
  {| bookkeeper := Some 3%N; rule := Some 51%N; consumer := Some 1%N |}.

(** [two_graphs] after the two rule edges were applied to graph 10. *)
Definition two_graphs_rules : World :=
  (applyEdges (IsRuleEdge <$> [rule_edge_BK_T; rule_edge_BK_T_other_rule])
     (Some 10%N) two_graphs).2.

(** [two_graphs_rules] after one more rule edge into [T]. *)
Definition two_graphs_three_rules : World :=
  (applyEdges (IsRuleEdge <$> [rule_edge_BK_T]) (Some 10%N)
     two_graphs_rules).2.

(** ** The rest of ICudaTask *)

(** [int getCudaId()], [const cudaStream_t &getStream() const],
    [int *getCudaIds()] and [size_t getNumGPUs()]. *)
Definition getCudaId : M Machine Z := field cudaId.
Definition getStream : M Machine cudaStream_t := field stream.
Definition getCudaIds : M Machine (list Z) := field cudaIds.
Definition getNumGPUs : M Machine N := field numGpus.

(** The calls of a task's whole life: those recorded above, the
    [shutdownCuda] hook, and the two stream calls of [shutdown] and
    [syncStream]. *)
Inductive LifecycleCall : Type :=
| earlier (c : CudaCall)
| shutdownCuda
| cudaStreamDestroy (stream : cudaStream_t)
| cudaStreamSynchronize (stream : cudaStream_t).

Record Lifecycle : Type := {
  task : ICudaTask;
  calls : list LifecycleCall
}.

(** A member function of the part above, run as a step of the life. *)
Definition as_step {A} (m : M Machine A) : M Lifecycle A :=
  fun l =>
    let r := m (start (task l)) in
    (r.1, {| task := this r.2; calls := calls l ++ (earlier <$> trace r.2) |}).

Definition lifecycle_call (c : LifecycleCall) : M Lifecycle unit :=
  modify (fun l => {| task := task l; calls := calls l ++ [c] |}).

(** [void shutdown() override final] *)
Definition shutdown : M Lifecycle unit :=
  lifecycle_call shutdownCuda ;;
  l <- get ;;
  lifecycle_call (cudaStreamDestroy (stream (task l))).

(** [void syncStream()] *)
Definition syncStream : M Lifecycle unit :=
  l <- get ;;
  lifecycle_call (cudaStreamSynchronize (stream (task l))).

(** A task that no member function was called on yet. *)
Definition born (t : ICudaTask) : Lifecycle := {| task := t; calls := [] |}.

(** From [m] to [m'] no field set by the constructor has changed, and
    [nonPeerDevIds] and the trace have only been appended to. *)
Definition grows (m m' : Machine) : Prop :=
  cudaIds (this m') = cudaIds (this m) ∧
  numGpus (this m') = numGpus (this m) ∧
  pipelineId (this m') = pipelineId (this m) ∧
  autoEnablePeerAccess (this m') = autoEnablePeerAccess (this m) ∧
  nonPeerDevIds (this m) `prefix_of` nonPeerDevIds (this m') ∧
  trace m `prefix_of` trace m'.

(** A task over GPUs 2 and 3, and the machine that has them. *)
Definition task_over_gpus_2_3 : ICudaTask :=
  ICudaTask_ctor_default storage_holding_true [2; 3]%Z 2.

Definition four_gpus : CudaRuntime :=
  {| deviceCount := 4;
     canAccessPeer := fun a b => if (b =? 3)%Z then 0%Z else 1%Z;
     newStream := 7 |}.

(** A task that claims three GPUs but lists two. *)
Definition task_claiming_three_gpus : ICudaTask :=
  ICudaTask_ctor_default storage_holding_true [0; 1]%Z 3.

(** [task_over_gpus_2_3] after [initialize]: bound to GPU 2. *)
Definition on_gpu2_initialized : Machine :=
  (initialize four_gpus (start task_over_gpus_2_3)).2.

(** Four GPUs that all reach one another, and [task_over_gpus_2_3] after
    [initialize] there: bound to GPU 2, no peer denied. *)
Definition four_gpus_all_peers : CudaRuntime :=
  {| deviceCount := 4; canAccessPeer := fun _ _ => 1%Z; newStream := 7 |}.

Definition on_gpu2_with_peers : Machine :=
  (initialize four_gpus_all_peers (start task_over_gpus_2_3)).2.

(** Task [T] (1) in graph 10, and two memory managers [MM] (2) and [MM2]
    (5); a memory edge [m] from [MM] and a memory edge [n] from [MM2], both
    to [T]. *)
Definition two_managers : World :=
  {| tasks :=
       <[1%N := a_task "T" UserTask]>
         (<[2%N := a_task "MM" (MemoryManager Static)]>
            (<[5%N := a_task "MM2" (MemoryManager Dynamic)]> ∅));
     connectors := ∅;
     graphs := <[10%N := graph10]> ∅ |}.

Definition edge_n_T_MM2 : MemoryEdge :=
  {| memoryEdgeName := "n"; getMemoryTask := Some 1%N;
     memoryManager := Some 5%N |}.

(** A rule edge from [BK] into the memory manager [MM]. *)
Definition rule_edge_BK_MM : RuleEdge :=
  {| bookkeeper := Some 3%N; rule := Some 50%N; consumer := Some 2%N |}.

(** [two_graphs_m] after that rule edge was applied to graph 10. *)
Definition two_graphs_m_rule : World :=
  (RuleEdge_applyEdge rule_edge_BK_MM (Some 10%N) two_graphs_m).2.

(** [two_graphs] with a third graph, 12, that carries the clone map of a
    deep copy: the original bookkeeper 30 was cloned to [BK] and the
    original consumer 31 to [T]; and a rule edge between the originals. *)
Definition graph12 : AnyTaskGraphConf :=
  {| taskManagers := ∅;
     taskCopyMap := <[30%N := 3%N]> (<[31%N := 1%N]> ∅) |}.

Definition two_graphs_and_clone_map : World :=
  set_graphs <[12%N := graph12]> two_graphs.

Definition rule_edge_of_originals : RuleEdge :=
  {| bookkeeper := Some 30%N; rule := Some 50%N; consumer := Some 31%N |}.

(** ** Facts about the monad *)

Lemma bind_Ok {S A B} (m : M S A) (k : A -> M S B) s a s' :
  m s = (Ok a, s') → bind m k s = k a s'.
Proof. intros H. unfold bind. by rewrite H. Qed.

Lemma bind_Throw {S A B} (m : M S A) (k : A -> M S B) s what s' :
  m s = (Throw what, s') → bind m k s = (Throw what, s').
Proof. intros H. unfold bind. by rewrite H. Qed.

Lemma bind_inv_Ok {S A B} (m : M S A) (k : A -> M S B) s b s'' :
  bind m k s = (Ok b, s'') →
  ∃ a s', m s = (Ok a, s') ∧ k a s' = (Ok b, s'').
Proof.
  unfold bind. destruct (m s) as [[a|what|] s'] eqn:E; try discriminate.
  intros H. by exists a, s'.
Qed.

Lemma defined_inv_Ok {S A} (o : option A) (s s' : S) a :
  defined o s = (Ok a, s') → o = Some a ∧ s' = s.
Proof.
  destruct o; unfold defined, ret, undefined; intros H; by simplify_eq.
Qed.

(** ** ICudaTask: reads, membership, the probing loop *)

Lemma array_read_lookup (a : list Z) (i : N) :
  array_read a i = a !! N.to_nat i.
Proof.
  unfold array_read. destruct (N.ltb_spec i (N.of_nat (length a))) as [H|H].
  - done.
  - symmetry. apply lookup_ge_None. lia.
Qed.

Lemma find_ne_end_elem_of (v : list Z) (x : Z) :
  find_ne_end v x = bool_decide (x ∈ v).
Proof.
  induction v as [|y v IH]; cbn.
  - symmetry. apply bool_decide_eq_false. apply not_elem_of_nil.
  - destruct (Z.eqb_spec y x) as [->|Hne].
    + symmetry. apply bool_decide_eq_true. apply list_elem_of_here.
    + rewrite IH. apply bool_decide_ext. rewrite elem_of_cons.
      split; [by right|]. by intros [->|?].
Qed.

Lemma requiresCopy_read (m : Machine) (p : N) (id : Z) :
  array_read (cudaIds (this m)) p = Some id →
  requiresCopy p m = (Ok (bool_decide (id ∈ nonPeerDevIds (this m))), m).
Proof.
  intros H. unfold requiresCopy, bind, field. cbn.
  destruct (nonPeerDevIds (this m)) as [|y v] eqn:Hv.
  - unfold ret. by rewrite (bool_decide_eq_false_2 _ (not_elem_of_nil id)).
  - rewrite H. cbn -[find_ne_end]. unfold ret.
    by rewrite find_ne_end_elem_of.
Qed.

Lemma requiresCopy_unread (m : Machine) (p : N) :
  array_read (cudaIds (this m)) p = None →
  nonPeerDevIds (this m) ≠ [] →
  requiresCopy p m = (Undefined, m).
Proof.
  intros H Hv. unfold requiresCopy, bind, field. cbn.
  destruct (nonPeerDevIds (this m)) as [|y v]; [done|]. by rewrite H.
Qed.

Lemma requiresCopy_nothing_denied (m : Machine) (p : N) :
  nonPeerDevIds (this m) = [] →
  requiresCopy p m = (Ok false, m).
Proof.
  intros Hv. unfold requiresCopy, bind, field. cbn. by rewrite Hv.
Qed.

Lemma probe_step (rt : CudaRuntime) (m : Machine) (i : N) (peer : Z) :
  array_read (cudaIds (this m)) i = Some peer →
  probe rt i m =
    (Ok tt,
     {| this :=
          set_nonPeerDevIds
            (nonPeerDevIds (this m)
               ++ List.filter (denied rt (cudaId (this m))) [peer]) (this m);
        trace := trace m ++ probe_calls rt (cudaId (this m)) peer |}).
Proof.
  intros H. destruct m as [t tr]. unfold probe, bind, field. cbn in *.
  rewrite H. cbn. unfold probe_calls, denied.
  destruct (peer =? cudaId t)%Z; cbn.
  - rewrite !app_nil_r. by destruct t.
  - destruct (canAccessPeer rt (cudaId t) peer =? 0)%Z; cbn.
    + done.
    + unfold call, modify. cbn. rewrite app_nil_r, <- app_assoc.
      by destruct t.
Qed.

Lemma probe_loop_run (rt : CudaRuntime) (n : nat) :
  ∀ (i : N) (m : Machine),
    N.to_nat i + n ≤ length (cudaIds (this m)) →
    let peers := take n (drop (N.to_nat i) (cudaIds (this m))) in
    probe_loop rt i n m =
      (Ok tt,
       {| this :=
            set_nonPeerDevIds
              (nonPeerDevIds (this m)
                 ++ List.filter (denied rt (cudaId (this m))) peers)
              (this m);
          trace :=
            trace m ++ flat_map (probe_calls rt (cudaId (this m))) peers |}).
Proof.
  induction n as [|n IH]; intros i m Hlen; cbn zeta.
  - cbn. rewrite !app_nil_r. by destruct m as [[] ?].
  - destruct (lookup_lt_is_Some_2 (cudaIds (this m)) (N.to_nat i))
      as [peer Hpeer]; [lia|].
    cbn [probe_loop].
    rewrite (bind_Ok _ _ _ _ _
               (probe_step rt m i peer
                  ltac:(by rewrite array_read_lookup))).
    rewrite IH by (cbn; lia). cbn.
    rewrite N2Nat.inj_succ.
    rewrite (drop_S _ _ _ Hpeer). cbn [take List.filter flat_map].
    unfold set_nonPeerDevIds. cbn.
    destruct (denied rt (cudaId (this m)) peer); cbn;
      by rewrite <- !app_assoc.
Qed.

Lemma probe_loop_never_throws (rt : CudaRuntime) (n : nat) :
  ∀ (i : N) (m : Machine) what, (probe_loop rt i n m).1 ≠ Throw what.
Proof.
  induction n as [|n IH]; intros i m what; cbn; [done|].
  unfold bind at 1.
  destruct (array_read (cudaIds (this m)) i) as [peer|] eqn:E.
  - rewrite (probe_step rt m i peer E). apply IH.
  - unfold probe, bind, field. rewrite E. cbn. done.
Qed.

(** The whole of [initialize], when the selected id is in range and the
    loop stays inside [cudaIds]. *)
Lemma initialize_run (rt : CudaRuntime) (m : Machine) (id : Z) :
  array_read (cudaIds (this m)) (pipelineId (this m)) = Some id →
  (id < deviceCount rt)%Z →
  N.to_nat (numGpus (this m)) ≤ length (cudaIds (this m)) →
  let peers :=
    if autoEnablePeerAccess (this m)
    then take (N.to_nat (numGpus (this m))) (cudaIds (this m))
    else [] in
  initialize rt m =
    (Ok tt,
     {| this :=
          set_nonPeerDevIds
            (nonPeerDevIds (this m) ++ List.filter (denied rt id) peers)
            (set_stream (newStream rt) (set_cudaId id (this m)));
        trace :=
          trace m
            ++ [cudaGetDeviceCount; cudaSetDevice id; cudaStreamCreate]
            ++ flat_map (probe_calls rt id) peers
            ++ [initializeCudaGPU] |}).
Proof.
  intros Hid Hlt Hlen. destruct m as [t tr]. cbn in *.
  unfold initialize, HTGS_ASSERT.
  unfold bind at 1 2 3 4 5 6 7 8 9 10. unfold field, update, call, modify.
  cbn. rewrite Hid. cbn.
  destruct (Z.ltb_spec id (deviceCount rt)) as [_|?]; [|lia]. cbn.
  destruct (autoEnablePeerAccess t) eqn:Hflag; cbn.
  - rewrite probe_loop_run by (cbn; lia). cbn.
    unfold set_nonPeerDevIds, set_stream, set_cudaId. cbn.
    rewrite <- !app_assoc. done.
  - unfold set_nonPeerDevIds, set_stream, set_cudaId. cbn.
    rewrite Hflag, app_nil_r, <- !app_assoc. done.
Qed.

(** ** ICudaTask: the claims *)

(** C1.  The constructor is documented to take [autoEnablePeerAccess], the
    flag that [initialize] tests.  The body never assigns the field: for
    every call, the field holds what the storage held, whatever argument was
    passed.  Constructed with [false] on storage that holds [true], the task
    still probes peer access in [initialize]. *)
Theorem ICudaTask_ctor_drops_autoEnablePeerAccess :
  (∀ raw ids n b,
     autoEnablePeerAccess (ICudaTask_ctor raw ids n b)
     = raw_autoEnablePeerAccess raw) ∧
  (let t := ICudaTask_ctor storage_holding_true [0; 1]%Z 2 false in
   autoEnablePeerAccess t ≠ false ∧
   ∃ m', initialize two_gpus_no_peer_access (start t) = (Ok tt, m') ∧
         cudaDeviceCanAccessPeer 0 1 ∈ trace m' ∧
         nonPeerDevIds (this m') = [1%Z]).
Proof.
  split; [done|]. cbn zeta. split; [done|].
  eexists. split; [vm_compute; reflexivity|]. cbn. split; [|done].
  do 3 apply list_elem_of_further. apply list_elem_of_here.
Qed.

(** C2.  [autoCopy(destination, data, numElems)] returns [true] exactly
    when the source GPU [cudaIds[data->getPipelineId()]] is in
    [nonPeerDevIds]; in that case it issues one [cudaMemcpyPeerAsync] from
    the source GPU into this task's GPU on this task's stream, and otherwise
    it issues no call at all.  The task itself is left as it was. *)
Theorem autoCopy_spec (m : Machine) (sizeofV : N) (destination : devptr)
    (data : MemoryData) (numElems : Z) (src : Z) :
  array_read (cudaIds (this m)) (getPipelineId data) = Some src →
  autoCopy sizeofV destination data numElems m =
    (Ok (bool_decide (src ∈ nonPeerDevIds (this m))),
     {| this := this m;
        trace :=
          trace m ++
          if bool_decide (src ∈ nonPeerDevIds (this m))
          then [cudaMemcpyPeerAsync destination (cudaId (this m))
                  (get_ data) src
                  (to_size_t (Z.of_N sizeofV * numElems))
                  (stream (this m))]
          else [] |}).
Proof.
  intros Hsrc. unfold autoCopy, requiresCopy_data.
  rewrite (bind_Ok _ _ _ _ _ (requiresCopy_read m _ _ Hsrc)).
  destruct (bool_decide (src ∈ nonPeerDevIds (this m))).
  - unfold bind, field, call, modify, ret. rewrite Hsrc. done.
  - unfold ret. rewrite app_nil_r. by destruct m.
Qed.

Lemma autoCopy_spec_witness :
  autoCopy 4 100 {| getPipelineId := 1; get_ := 200 |} 8
    (start task_on_gpu0_without_peer1)
  = (Ok true,
     {| this := task_on_gpu0_without_peer1;
        trace := [cudaMemcpyPeerAsync 100 0 200 1 32 9] |}).
Proof.
  exact (autoCopy_spec (start task_on_gpu0_without_peer1) 4 100
           {| getPipelineId := 1; get_ := 200 |} 8 1 eq_refl).
Defined.

(** C9.  [hasPeerToPeerCopy(pipelineId)] does not look at its argument:
    any two pipeline ids give the same answer, and that answer is the
    negation of [requiresCopy] at index [(size_t) cudaId], the task's own
    CUDA id. *)
Theorem hasPeerToPeerCopy_ignores_pipelineId (m : Machine) (p q : N) :
  hasPeerToPeerCopy p m = hasPeerToPeerCopy q m ∧
  hasPeerToPeerCopy p m =
    match requiresCopy (to_size_t (cudaId (this m))) m with
    | (Ok b, m') => (Ok (negb b), m')
    | (Throw what, m') => (Throw what, m')
    | (Undefined, m') => (Undefined, m')
    end.
Proof.
  split; [reflexivity|].
  unfold hasPeerToPeerCopy. unfold bind at 1. unfold field at 1.
  unfold bind at 1. unfold ret.
  by destruct (requiresCopy _ m) as [[b|w|] m'].
Qed.

(** The answer need not agree with [requiresCopy] at the pipeline asked
    about: pipeline 1 requires a copy, yet peer-to-peer copy is reported. *)
Example hasPeerToPeerCopy_not_the_requested_pipeline :
  requiresCopy 1 (start task_on_gpu0_without_peer1)
    = (Ok true, start task_on_gpu0_without_peer1) ∧
  hasPeerToPeerCopy 1 (start task_on_gpu0_without_peer1)
    = (Ok true, start task_on_gpu0_without_peer1).
Proof. split; reflexivity. Qed.

(** C4.  When the selected id [cudaIds[pipelineId]] is not smaller than the
    device count, [initialize] ends in the assertion's error, whose text
    names the id and the device count; the only CUDA call made by then is
    [cudaGetDeviceCount], so no stream was created and no peer probed.
    When the id is smaller than the device count, [initialize] does not end
    in an error. *)
Theorem initialize_cuda_id_out_of_range (rt : CudaRuntime) (m : Machine)
    (id : Z) :
  array_read (cudaIds (this m)) (pipelineId (this m)) = Some id →
  ((deviceCount rt ≤ id)%Z →
     initialize rt m =
       (Throw (assert_message id (deviceCount rt)),
        {| this := set_cudaId id (this m);
           trace := trace m ++ [cudaGetDeviceCount] |})) ∧
  ((id < deviceCount rt)%Z →
     ∀ what, (initialize rt m).1 ≠ Throw what).
Proof.
  intros Hid. destruct m as [t tr]. cbn in *. split; intros Hcmp.
  - unfold initialize, HTGS_ASSERT.
    unfold bind, field, update, call, modify, throw. cbn. rewrite Hid. cbn.
    destruct (Z.ltb_spec id (deviceCount rt)); [lia|]. done.
  - intros what. unfold initialize, HTGS_ASSERT.
    unfold bind at 1 2 3 4 5 6 7 8 9 10. unfold field, update, call, modify.
    cbn. rewrite Hid. cbn.
    destruct (Z.ltb_spec id (deviceCount rt)); [|lia]. cbn.
    destruct (autoEnablePeerAccess t); cbn.
    + match goal with
      | |- context [probe_loop rt ?i ?n ?s] =>
          pose proof (probe_loop_never_throws rt n i s what) as Hno;
          destruct (probe_loop rt i n s) as [[[]|w|] s']
      end; cbn in *; congruence.
    + done.
Qed.

Lemma initialize_cuda_id_out_of_range_witness :
  initialize two_gpus_no_peer_access (start task_bound_to_gpu5) =
    (Throw "Error: Cuda ID: 5 is larger than the number of GPUs: 2",
     {| this := set_cudaId 5 task_bound_to_gpu5;
        trace := [cudaGetDeviceCount] |}) ∧
  ∀ what,
    (initialize two_gpus_no_peer_access (start task_on_gpu0_without_peer1)).1
    ≠ Throw what.
Proof.
  split.
  - apply (initialize_cuda_id_out_of_range two_gpus_no_peer_access
             (start task_bound_to_gpu5) 5 eq_refl).
    vm_compute. discriminate.
  - apply (initialize_cuda_id_out_of_range two_gpus_no_peer_access
             (start task_on_gpu0_without_peer1) 0 eq_refl).
    reflexivity.
Defined.

(** C3, as stated, fails, also with the flag on.  A task bound to GPU 5 of
    a machine with two GPUs ends in the assertion's error before any stream
    is created.  A task that lists three GPUs and counts two returns
    without having probed the third.  A task initialized once, and again
    after peer access to GPU 1 has become possible, still holds GPU 1 in
    [nonPeerDevIds]. *)
Lemma initialize_not_initialized_with_flag_on :
  (autoEnablePeerAccess task_bound_to_gpu5 = true ∧
   ∃ what m',
     initialize two_gpus_no_peer_access (start task_bound_to_gpu5)
       = (Throw what, m') ∧
     (cudaStreamCreate ∉ trace m') ∧
     ¬ initialized two_gpus_no_peer_access task_bound_to_gpu5 m') ∧
  (autoEnablePeerAccess task_counting_two_of_three_gpus = true ∧
   ∃ m',
     initialize three_gpus_no_peer_access
       (start task_counting_two_of_three_gpus) = (Ok tt, m') ∧
     (cudaDeviceCanAccessPeer 0 2 ∉ trace m') ∧
     ¬ initialized three_gpus_no_peer_access
         task_counting_two_of_three_gpus m') ∧
  (autoEnablePeerAccess task_initialized_without_peer1 = true ∧
   ∃ m',
     initialize two_gpus_with_peer_access
       (start task_initialized_without_peer1) = (Ok tt, m') ∧
     nonPeerDevIds (this m') = [1%Z] ∧
     ¬ initialized two_gpus_with_peer_access
         task_initialized_without_peer1 m').
Proof.
  split; [|split].
  - split; [reflexivity|]. eexists. eexists.
    split; [vm_compute; reflexivity|].
    assert (Hno : cudaStreamCreate ∉ [cudaGetDeviceCount]).
    { intros H%list_elem_of_singleton. discriminate. }
    split; [exact Hno|].
    intros (id & _ & _ & Hstream & _). by apply Hno.
  - split; [reflexivity|]. eexists.
    split; [vm_compute; reflexivity|].
    assert (Hno : cudaDeviceCanAccessPeer 0 2 ∉
                    [cudaGetDeviceCount; cudaSetDevice 0; cudaStreamCreate;
                     cudaDeviceCanAccessPeer 0 1; initializeCudaGPU]).
    { rewrite !elem_of_cons, elem_of_nil.
      intros [H|[H|[H|[H|[H|[]]]]]]; discriminate. }
    split; [exact Hno|].
    intros (id & Hid & _ & _ & _ & Hprobed & _).
    vm_compute in Hid. injection Hid as <-.
    apply Hno, (Hprobed 2%Z); [|lia].
    do 2 apply list_elem_of_further. apply list_elem_of_here.
  - split; [reflexivity|]. eexists.
    split; [vm_compute; reflexivity|].
    split; [reflexivity|].
    intros (id & Hid & _ & _ & _ & _ & Hnon).
    vm_compute in Hid. injection Hid as <-.
    destruct (proj1 (Hnon 1%Z)) as (_ & _ & Hdenied).
    + apply list_elem_of_here.
    + discriminate.
Qed.

(** C3, amended.  On a task whose [autoEnablePeerAccess] field reads
    [true], whose [numGpus] is the number of entries of [cudaIds], whose
    [nonPeerDevIds] is still empty (its first [initialize]) and for which
    [cudaIds[pipelineId]] is an entry below the device count, [initialize]
    returns, having set [cudaId] to [cudaIds[pipelineId]], created a stream
    and probed peer access to every other GPU of [cudaIds]; [nonPeerDevIds]
    then holds exactly the other GPUs of [cudaIds] that denied access. *)
Theorem initialize_probes_when_enabled (rt : CudaRuntime) (t : ICudaTask)
    (id : Z) :
  autoEnablePeerAccess t = true →
  well_formed t →
  nonPeerDevIds t = [] →
  array_read (cudaIds t) (pipelineId t) = Some id →
  (id < deviceCount rt)%Z →
  ∃ m', initialize rt (start t) = (Ok tt, m') ∧ initialized rt t m'.
Proof.
  intros Hflag Hwf Hnil Hid Hlt. unfold well_formed in Hwf.
  eexists. split.
  { apply (initialize_run rt (start t) id); cbn; [done|done|].
    rewrite Hwf. lia. }
  cbn. rewrite Hflag, Hnil, Hwf, Nat2N.id, firstn_all. cbn.
  exists id.
  split; [done|]. split; [done|].
  split; [do 2 apply list_elem_of_further; apply list_elem_of_here|].
  split; [done|].
  split.
  - intros peer Hin Hne. apply elem_of_cons. right.
    apply elem_of_cons. right. apply elem_of_cons. right.
    apply elem_of_app. left.
    apply list_elem_of_In, in_flat_map. exists peer.
    split; [by apply list_elem_of_In|].
    unfold probe_calls. destruct (Z.eqb_spec peer id); [done|].
    apply in_eq.
  - intros peer. unfold set_nonPeerDevIds. cbn.
    rewrite list_elem_of_In, filter_In, <- list_elem_of_In. unfold denied.
    rewrite andb_true_iff, negb_true_iff, Z.eqb_neq, Z.eqb_eq. done.
Qed.

Lemma initialize_probes_when_enabled_witness :
  ∃ m', initialize two_gpus_no_peer_access (start two_gpus_peer1_denied)
          = (Ok tt, m') ∧
        initialized two_gpus_no_peer_access two_gpus_peer1_denied m'.
Proof.
  apply (initialize_probes_when_enabled two_gpus_no_peer_access
           two_gpus_peer1_denied 0);
    [reflexivity | reflexivity | reflexivity | reflexivity | reflexivity].
Defined.

(** ** The task graph: what each primitive does *)

Lemma modify_inv_Ok {S} (f : S -> S) (s s' : S) u :
  modify f s = (Ok u, s') → s' = f s.
Proof. unfold modify. intros H. by simplify_eq. Qed.

Lemma ret_inv_Ok {S A} (a b : A) (s s' : S) :
  ret a s = (Ok b, s') → b = a ∧ s' = s.
Proof. unfold ret. intros H. by simplify_eq. Qed.

Lemma deref_Some {A} (store : World -> gmap addr A) (w : World) a x :
  store w !! a = Some x → deref store (Some a) w = (Ok x, w).
Proof. intros H. unfold deref, bind, get. cbn. by rewrite H. Qed.

Lemma deref_inv_Ok {A} (store : World -> gmap addr A) p (w w' : World) x :
  deref store p w = (Ok x, w') →
  w' = w ∧ ∃ a, p = Some a ∧ store w !! a = Some x.
Proof.
  unfold deref, bind, get. intros H.
  apply defined_inv_Ok in H as [H ->]. split; [done|].
  destruct p as [a|]; [|done]. by exists a.
Qed.

Lemma addr_of_inv_Ok p (w w' : World) a :
  addr_of p w = (Ok a, w') → w' = w ∧ p = Some a.
Proof. intros H. by apply defined_inv_Ok in H as [-> ->]. Qed.

Lemma with_TaskManager_found ga ta g tm w :
  graphs w !! ga = Some g → taskManagers g !! ta = Some tm →
  with_TaskManager ga ta g w = w.
Proof.
  intros Hg Htm. unfold with_TaskManager, set_graphs, set_taskManagers.
  rewrite Htm. cbn. rewrite (insert_id (taskManagers g)) by done.
  destruct g. cbn. rewrite insert_id by done. by destruct w.
Qed.

Lemma getTaskManager_run ga ta g w :
  graphs w !! ga = Some g →
  getTaskManager (Some ga) (Some ta) w =
    (Ok {| ref_graph := ga; ref_task := ta |}, with_TaskManager ga ta g w).
Proof.
  intros Hg. unfold getTaskManager.
  unfold bind at 1. cbn.
  rewrite (bind_Ok _ _ _ _ _ (deref_Some graphs w ga g Hg)).
  unfold bind at 1. cbn.
  destruct (taskManagers g !! ta) as [tm|] eqn:Htm.
  - by rewrite (with_TaskManager_found ga ta g tm w).
  - unfold with_TaskManager. by rewrite Htm.
Qed.

Lemma getTaskManager_inv_Ok graph task w r w' :
  getTaskManager graph task w = (Ok r, w') →
  ∃ ga ta g,
    graph = Some ga ∧ task = Some ta ∧ graphs w !! ga = Some g ∧
    r = {| ref_graph := ga; ref_task := ta |} ∧
    w' = with_TaskManager ga ta g w.
Proof.
  intros H. unfold getTaskManager in H.
  apply bind_inv_Ok in H as (ga & w1 & H1 & H).
  apply addr_of_inv_Ok in H1 as [-> ->].
  apply bind_inv_Ok in H as (g & w1 & H1 & H).
  apply deref_inv_Ok in H1 as [-> (? & [= <-] & Hg)].
  apply bind_inv_Ok in H as (ta & w1 & H1 & H).
  apply addr_of_inv_Ok in H1 as [-> ->].
  exists ga, ta, g.
  destruct (taskManagers g !! ta) as [tm|] eqn:Htm.
  - apply ret_inv_Ok in H as [-> ->].
    by rewrite (with_TaskManager_found ga ta g tm w).
  - apply bind_inv_Ok in H as (u & w1 & H1 & H).
    apply modify_inv_Ok in H1 as ->. apply ret_inv_Ok in H as [-> ->].
    unfold with_TaskManager. by rewrite Htm.
Qed.

Lemma new_Connector_run w :
  new_Connector w =
    (Ok (fresh (dom (connectors w))),
     set_connectors <[fresh (dom (connectors w)) := Connector_new]> w).
Proof. reflexivity. Qed.

Lemma fresh_connector w : connectors w !! fresh (dom (connectors w)) = None.
Proof. apply not_elem_of_dom, is_fresh. Qed.

Lemma read_TaskManager_inv_Ok r w tm w' :
  read_TaskManager r w = (Ok tm, w') →
  w' = w ∧ taskManager_of w (ref_graph r) (ref_task r) = Some tm.
Proof.
  intros H. unfold read_TaskManager in H.
  apply bind_inv_Ok in H as (g & w1 & H1 & H).
  apply deref_inv_Ok in H1 as [-> (? & [= <-] & Hg)].
  apply defined_inv_Ok in H as [H ->]. split; [done|].
  unfold taskManager_of. by rewrite Hg.
Qed.

Lemma write_TaskManager_inv_Ok r f w u w' :
  write_TaskManager r f w = (Ok u, w') →
  ∃ g tm,
    graphs w !! ref_graph r = Some g ∧
    taskManagers g !! ref_task r = Some tm ∧
    w' = set_graphs
           <[ref_graph r := set_taskManagers <[ref_task r := f tm]> g]> w.
Proof.
  intros H. unfold write_TaskManager in H.
  apply bind_inv_Ok in H as (g & w1 & H1 & H).
  apply deref_inv_Ok in H1 as [-> (? & [= <-] & Hg)].
  apply bind_inv_Ok in H as (tm & w1 & H1 & H).
  apply defined_inv_Ok in H1 as [Htm ->].
  apply modify_inv_Ok in H. by exists g, tm.
Qed.

Lemma incrementInputTaskCount_inv_Ok a w u w' :
  incrementInputTaskCount a w = (Ok u, w') →
  ∃ c, connectors w !! a = Some c ∧
       w' = set_connectors <[a := Connector_incrementInputTaskCount c]> w.
Proof.
  intros H. unfold incrementInputTaskCount in H.
  apply bind_inv_Ok in H as (c & w1 & H1 & H).
  apply deref_inv_Ok in H1 as [-> (? & [= <-] & Hc)].
  apply modify_inv_Ok in H. by exists c.
Qed.

Lemma getType_inv_Ok p w type w' :
  getType p w = (Ok type, w') →
  w' = w ∧ ∃ a, p = Some a ∧ type_of w a = Some type.
Proof.
  intros H. unfold getType in H.
  apply bind_inv_Ok in H as (t & w1 & H1 & H).
  apply deref_inv_Ok in H1 as [-> (a & -> & Ht)].
  unfold type_of. destruct (derived t) eqn:Hd; try discriminate.
  apply ret_inv_Ok in H as [-> ->]. split; [done|].
  exists a. split; [done|]. rewrite Ht. cbn. by rewrite Hd.
Qed.

Lemma addRuleScheduler_inv_Ok p rs w u w' :
  addRuleScheduler p rs w = (Ok u, w') →
  ∃ a t l,
    p = Some a ∧ tasks w !! a = Some t ∧ derived t = Bookkeeper l ∧
    w' = set_tasks
           <[a := {| getName := getName t; memoryEdges := memoryEdges t;
                     derived := Bookkeeper (l ++ [rs]) |}]> w.
Proof.
  intros H. unfold addRuleScheduler in H.
  apply bind_inv_Ok in H as (a & w1 & H1 & H).
  apply addr_of_inv_Ok in H1 as [-> ->].
  apply bind_inv_Ok in H as (t & w1 & H1 & H).
  apply deref_inv_Ok in H1 as [-> (? & [= <-] & Ht)].
  destruct (derived t) as [|l|] eqn:Hd; try discriminate.
  apply modify_inv_Ok in H. by exists a, t, l.
Qed.

(** ** Which errors a computation can end in *)

Section throws_only.
Context {S : Type} (P : string → Prop).

Lemma throws_only_ret {A} (a : A) : throws_only P (ret (S:=S) a).
Proof. intros s what H. discriminate. Qed.

Lemma throws_only_undefined {A} : throws_only P (undefined (S:=S) (A:=A)).
Proof. intros s what H. discriminate. Qed.

Lemma throws_only_get : throws_only P (get (S:=S)).
Proof. intros s what H. discriminate. Qed.

Lemma throws_only_modify (f : S -> S) : throws_only P (modify f).
Proof. intros s what H. discriminate. Qed.

Lemma throws_only_defined {A} (o : option A) :
  throws_only P (defined (S:=S) o).
Proof. destruct o; intros s what H; discriminate. Qed.

Lemma throws_only_throw {A} what :
  P what → throws_only P (throw (S:=S) (A:=A) what).
Proof. intros HP s what' H. cbn in H. by simplify_eq. Qed.

Lemma throws_only_bind {A B} (m : M S A) (k : A -> M S B) :
  throws_only P m → (∀ a, throws_only P (k a)) →
  throws_only P (bind m k).
Proof.
  intros Hm Hk s what. unfold bind.
  specialize (Hm s). destruct (m s) as [[a|what'|] s']; cbn in *.
  - apply Hk.
  - intros [= <-]. by apply Hm.
  - discriminate.
Qed.
End throws_only.

Ltac throws_only_step :=
  first
    [ apply throws_only_ret
    | apply throws_only_undefined
    | apply throws_only_get
    | apply throws_only_modify
    | apply throws_only_defined
    | apply throws_only_bind; [|intros ?]
    | match goal with
      | |- throws_only _ (match ?x with _ => _ end) => destruct x
      end ].

Ltac throws_only_auto := repeat throws_only_step.

Section throws_only_graph.
Context (P : string → Prop).

Lemma throws_only_deref {A} (store : World -> gmap addr A) p :
  throws_only P (deref store p).
Proof. unfold deref. throws_only_auto. Qed.

Lemma throws_only_addr_of p : throws_only P (addr_of p).
Proof. unfold addr_of. throws_only_auto. Qed.

Lemma throws_only_new_Connector : throws_only P new_Connector.
Proof. unfold new_Connector. throws_only_auto. Qed.

Lemma throws_only_release_Connector a :
  throws_only P (release_Connector a).
Proof. unfold release_Connector. throws_only_auto. Qed.

Lemma throws_only_incrementInputTaskCount a :
  throws_only P (incrementInputTaskCount a).
Proof.
  unfold incrementInputTaskCount.
  apply throws_only_bind; [apply throws_only_deref|intros ?].
  throws_only_auto.
Qed.

Lemma throws_only_read_TaskManager r : throws_only P (read_TaskManager r).
Proof.
  unfold read_TaskManager.
  apply throws_only_bind; [apply throws_only_deref|intros ?].
  throws_only_auto.
Qed.

Lemma throws_only_write_TaskManager r f :
  throws_only P (write_TaskManager r f).
Proof.
  unfold write_TaskManager.
  apply throws_only_bind; [apply throws_only_deref|intros ?].
  throws_only_auto.
Qed.

Lemma throws_only_getTaskManager graph task :
  throws_only P (getTaskManager graph task).
Proof.
  unfold getTaskManager.
  apply throws_only_bind; [apply throws_only_addr_of|intros ?].
  apply throws_only_bind; [apply throws_only_deref|intros ?].
  apply throws_only_bind; [apply throws_only_addr_of|intros ?].
  throws_only_auto.
Qed.

Lemma throws_only_getType p : throws_only P (getType p).
Proof.
  unfold getType.
  apply throws_only_bind; [apply throws_only_deref|intros ?].
  throws_only_auto.
Qed.

Lemma throws_only_addRuleScheduler p rs :
  throws_only P (addRuleScheduler p rs).
Proof.
  unfold addRuleScheduler.
  apply throws_only_bind; [apply throws_only_addr_of|intros ?].
  apply throws_only_bind; [apply throws_only_deref|intros ?].
  throws_only_auto.
Qed.
End throws_only_graph.

Ltac throws_only_graph :=
  repeat first
    [ apply throws_only_deref
    | apply throws_only_addr_of
    | apply throws_only_new_Connector
    | apply throws_only_release_Connector
    | apply throws_only_incrementInputTaskCount
    | apply throws_only_read_TaskManager
    | apply throws_only_write_TaskManager
    | apply throws_only_getTaskManager
    | apply throws_only_getType
    | apply throws_only_addRuleScheduler
    | throws_only_step ].

(** [RuleEdge::applyEdge] has no [throw]. *)
Lemma RuleEdge_applyEdge_never_throws e graph :
  throws_only (fun _ => False) (RuleEdge_applyEdge e graph).
Proof. unfold RuleEdge_applyEdge. throws_only_graph. Qed.

(** The three error texts of [MemoryEdge::applyEdge] differ. *)
Lemma append_inv_head (p x y : string) :
  (p ++ x)%string = (p ++ y)%string → x = y.
Proof. induction p as [|c p IH]; cbn; [done|]. intros [= H]. by apply IH. Qed.

Lemma already_has_edge_ne_must_be_added n e :
  already_has_edge n e ≠ must_be_added n.
Proof.
  unfold already_has_edge, must_be_added. intros H.
  apply (append_inv_head "Error getMemoryTask: ") in H.
  apply append_inv_head in H. cbn in H. discriminate.
Qed.

Lemma already_has_edge_ne_already_connected n e n' :
  already_has_edge n e ≠ already_connected n'.
Proof. unfold already_has_edge, already_connected. cbn. discriminate. Qed.

Lemma must_be_added_ne_already_connected n n' :
  must_be_added n ≠ already_connected n'.
Proof. unfold must_be_added, already_connected. cbn. discriminate. Qed.

(** Once the name check has passed, [MemoryEdge::applyEdge] can only end in
    one of the other two errors. *)
Lemma MemoryEdge_applyEdge_other_errors e graph w ta t :
  getMemoryTask e = Some ta → tasks w !! ta = Some t →
  hasMemoryEdge t (memoryEdgeName e) = false →
  ∀ what, (MemoryEdge_applyEdge e graph w).1 = Throw what →
          what = must_be_added (getName t) ∨
          what = already_connected (getName t).
Proof.
  intros Hta Ht Hhas what. unfold MemoryEdge_applyEdge.
  rewrite Hta, (bind_Ok _ _ _ _ _ (deref_Some tasks w ta t Ht)), Hhas.
  revert what.
  match goal with
  | |- ∀ what, (?m w).1 = Throw what → _ =>
      cut (throws_only
             (fun what => what = must_be_added (getName t) ∨
                          what = already_connected (getName t)) m);
        [intros H what; apply H|]
  end.
  throws_only_graph; apply throws_only_throw; auto.
Qed.

(** What a successful [MemoryEdge::applyEdge] found and what it left. *)
Lemma MemoryEdge_applyEdge_inv_Ok e graph w w' :
  MemoryEdge_applyEdge e graph w = (Ok tt, w') →
  ∃ ga ta ma g t type gc rc,
    graph = Some ga ∧ getMemoryTask e = Some ta ∧
    memoryManager e = Some ma ∧
    graphs w !! ga = Some g ∧ tasks w !! ta = Some t ∧
    hasMemoryEdge t (memoryEdgeName e) = false ∧
    hasTask g (Some ta) = true ∧
    inputConnector_of w ga ma = None ∧
    outputConnector_of w ga ma = None ∧
    type_of w ma = Some type ∧
    connectors w !! gc = None ∧ connectors w !! rc = None ∧ gc ≠ rc ∧
    inputConnector_of w' ga ma = Some rc ∧
    outputConnector_of w' ga ma = Some gc ∧
    producerCount_of w' gc = Some 1%N ∧
    producerCount_of w' rc = Some 1%N ∧
    memoryEdge_of w' ta (memoryEdgeName e) =
      Some {| getMemoryConnector := Some gc;
              releaseMemoryConnector := Some rc;
              attachedType := type |}.
Proof.
  intros H. unfold MemoryEdge_applyEdge in H.
  apply bind_inv_Ok in H as (t & w1 & H1 & H).
  apply deref_inv_Ok in H1 as [-> (ta & Hta & Ht)].
  destruct (hasMemoryEdge t (memoryEdgeName e)) eqn:Hhas; [discriminate|].
  apply bind_inv_Ok in H as (g & w1 & H1 & H).
  apply deref_inv_Ok in H1 as [-> (ga & -> & Hg)].
  destruct (hasTask g (getMemoryTask e)) eqn:HhasTask; [|discriminate].
  cbn [negb] in H.
  apply bind_inv_Ok in H as (r & w1 & H1 & H).
  apply getTaskManager_inv_Ok in H1
    as (? & ma & ? & [= <-] & Hma & Hg' & -> & ->).
  rewrite Hg in Hg'. injection Hg' as <-.
  apply bind_inv_Ok in H as (gc & w1 & H1 & H).
  rewrite new_Connector_run in H1. injection H1 as <- <-.
  apply bind_inv_Ok in H as (rc & w1 & H1 & H).
  rewrite new_Connector_run in H1. injection H1 as <- <-.
  apply bind_inv_Ok in H as (tm & w1 & H1 & H).
  apply read_TaskManager_inv_Ok in H1 as [-> Htm].
  set (gc := fresh (dom (connectors w))) in *.
  set (rc := fresh (dom (<[gc := Connector_new]> (connectors w)))) in *.
  assert (Hgc : connectors w !! gc = None) by apply fresh_connector.
  assert (Hrc : <[gc := Connector_new]> (connectors w) !! rc = None).
  { apply not_elem_of_dom, is_fresh. }
  assert (Hne : gc ≠ rc).
  { intros <-. by rewrite lookup_insert_eq in Hrc. }
  rewrite lookup_insert_ne in Hrc by done.
  unfold taskManager_of in Htm. cbn in Htm.
  rewrite lookup_insert_eq in Htm. cbn in Htm.
  rewrite lookup_insert_eq in Htm. injection Htm as <-.
  case_bool_decide as Hin.
  { unfold bind, release_Connector, modify, throw in H. discriminate. }
  case_bool_decide as Hout.
  { unfold bind, release_Connector, modify, throw in H. discriminate. }
  apply bind_inv_Ok in H as (u & w1 & H1 & H).
  apply write_TaskManager_inv_Ok in H1 as (g1 & tm1 & Hg1 & Htm1 & ->).
  cbn in Hg1, Htm1. rewrite lookup_insert_eq in Hg1. injection Hg1 as <-.
  cbn in Htm1. rewrite lookup_insert_eq in Htm1. injection Htm1 as <-.
  apply bind_inv_Ok in H as (u' & w1 & H1 & H).
  apply write_TaskManager_inv_Ok in H1 as (g1 & tm1 & Hg1 & Htm1 & ->).
  cbn in Hg1, Htm1. rewrite lookup_insert_eq in Hg1. injection Hg1 as <-.
  cbn in Htm1. rewrite lookup_insert_eq in Htm1. injection Htm1 as <-.
  apply bind_inv_Ok in H as (u'' & w1 & H1 & H).
  apply incrementInputTaskCount_inv_Ok in H1 as (c1 & Hc1 & ->).
  cbn in Hc1. rewrite lookup_insert_ne, lookup_insert_eq in Hc1 by done.
  injection Hc1 as <-.
  apply bind_inv_Ok in H as (u''' & w1 & H1 & H).
  apply incrementInputTaskCount_inv_Ok in H1 as (c1 & Hc1 & ->).
  cbn in Hc1. rewrite lookup_insert_ne, lookup_insert_eq in Hc1 by done.
  injection Hc1 as <-.
  apply bind_inv_Ok in H as (type & w1 & H1 & H).
  apply getType_inv_Ok in H1 as [-> (ma' & Hma' & Htype)].
  rewrite Hma in Hma'. injection Hma' as <-.
  apply bind_inv_Ok in H as (ta' & w1 & H1 & H).
  apply addr_of_inv_Ok in H1 as [-> Hta'].
  rewrite Hta in Hta'. injection Hta' as <-.
  apply bind_inv_Ok in H as (t' & w1 & H1 & H).
  apply deref_inv_Ok in H1 as [-> (ta' & Hta' & Ht')].
  rewrite Hta in Hta'. injection Hta' as <-.
  cbn in Ht'. rewrite Ht in Ht'. injection Ht' as <-.
  apply modify_inv_Ok in H as ->.
  exists ga, ta, ma, g, t, type, gc, rc.
  rewrite Hta in HhasTask.
  split; [done|]. split; [done|]. split; [done|]. split; [done|].
  split; [done|]. split; [done|]. split; [done|].
  split. { unfold inputConnector_of, taskManager_of. rewrite Hg. cbn.
           destruct (taskManagers g !! ma); cbn in *; done. }
  split. { unfold outputConnector_of, taskManager_of. rewrite Hg. cbn.
           destruct (taskManagers g !! ma); cbn in *; done. }
  split; [done|]. split; [done|]. split; [done|]. split; [done|].
  unfold inputConnector_of, outputConnector_of, taskManager_of,
    producerCount_of, memoryEdge_of. cbn.
  rewrite !lookup_insert_eq. cbn. rewrite !lookup_insert_eq. cbn.
  split; [done|]. split; [done|].
  rewrite lookup_insert_ne, lookup_insert_eq by done. done.
Qed.

Lemma read_TaskManager_run ga ta w tm :
  taskManager_of w ga ta = Some tm →
  read_TaskManager {| ref_graph := ga; ref_task := ta |} w = (Ok tm, w).
Proof.
  unfold taskManager_of, read_TaskManager. intros H. cbn.
  destruct (graphs w !! ga) as [g|] eqn:Hg; [|done]. cbn in H.
  rewrite (bind_Ok _ _ _ _ _ (deref_Some graphs w ga g Hg)).
  by rewrite H.
Qed.

(** [MemoryEdge::applyEdge] on a graph whose task manager for the memory
    manager already has a connector. *)
Lemma MemoryEdge_applyEdge_connected w e ga g ta t ma tm :
  getMemoryTask e = Some ta → tasks w !! ta = Some t →
  graphs w !! ga = Some g →
  memoryManager e = Some ma → taskManagers g !! ma = Some tm →
  getInputConnector tm ≠ nullptr ∨ getOutputConnector tm ≠ nullptr →
  ∃ what,
    (MemoryEdge_applyEdge e (Some ga) w).1 = Throw what ∧
    (what = already_has_edge (getName t) (memoryEdgeName e) ∨
     what = must_be_added (getName t) ∨
     what = already_connected (getName t)) ∧
    (hasMemoryEdge t (memoryEdgeName e) = false →
     hasTask g (Some ta) = true →
     what = already_connected (getName t)).
Proof.
  intros Hta Ht Hg Hma Htm Hconn. unfold MemoryEdge_applyEdge.
  rewrite Hta, (bind_Ok _ _ _ _ _ (deref_Some tasks w ta t Ht)).
  destruct (hasMemoryEdge t (memoryEdgeName e)) eqn:Hhas.
  { eexists. split; [reflexivity|]. split; [by left|done]. }
  rewrite (bind_Ok _ _ _ _ _ (deref_Some graphs w ga g Hg)).
  destruct (hasTask g (Some ta)) eqn:HhasTask; cbn [negb].
  2:{ eexists. split; [reflexivity|]. split; [by right; left|done]. }
  rewrite Hma, (bind_Ok _ _ _ _ _ (getTaskManager_run ga ma g w Hg)).
  rewrite (with_TaskManager_found ga ma g tm w Hg Htm).
  rewrite (bind_Ok _ _ _ _ _ (new_Connector_run _)).
  rewrite (bind_Ok _ _ _ _ _ (new_Connector_run _)).
  erewrite bind_Ok; last first.
  { apply read_TaskManager_run. unfold taskManager_of. cbn.
    rewrite Hg. cbn. exact Htm. }
  exists (already_connected (getName t)).
  split; [|split; [by right; right|done]].
  case_bool_decide as Hin; [reflexivity|].
  case_bool_decide as Hout; [reflexivity|].
  destruct Hconn; congruence.
Qed.

(** ** MemoryEdge: the claims *)

(** C5.  [MemoryEdge::applyEdge] ends in the error "Error getMemoryTask:
    <task> already has the memory edge: <name>" when the task getting
    memory already has a memory edge of the edge's name, whatever the graph
    is, and leaves every object as it was; when the task has no memory edge
    of that name, it does not end in that error. *)
Theorem MemoryEdge_applyEdge_duplicate_name (w : World) (e : MemoryEdge)
    (graph : ptr) (ta : addr) (t : AnyITask) :
  getMemoryTask e = Some ta → tasks w !! ta = Some t →
  (hasMemoryEdge t (memoryEdgeName e) = true →
   MemoryEdge_applyEdge e graph w =
     (Throw (already_has_edge (getName t) (memoryEdgeName e)), w)) ∧
  (hasMemoryEdge t (memoryEdgeName e) = false →
   (MemoryEdge_applyEdge e graph w).1 ≠
     Throw (already_has_edge (getName t) (memoryEdgeName e))).
Proof.
  intros Hta Ht. split; intros Hhas.
  - unfold MemoryEdge_applyEdge.
    rewrite Hta, (bind_Ok _ _ _ _ _ (deref_Some tasks w ta t Ht)), Hhas.
    reflexivity.
  - intros H.
    destruct (MemoryEdge_applyEdge_other_errors e graph w ta t
                Hta Ht Hhas _ H) as [H'|H'].
    + by apply already_has_edge_ne_must_be_added in H'.
    + by apply already_has_edge_ne_already_connected in H'.
Qed.

Lemma MemoryEdge_applyEdge_duplicate_name_witness :
  MemoryEdge_applyEdge edge_m_T_MM (Some 10%N) two_graphs_m =
    (Throw (already_has_edge (getName T_with_m)
              (memoryEdgeName edge_m_T_MM)), two_graphs_m) ∧
  (MemoryEdge_applyEdge edge_m_T_MM (Some 10%N) two_graphs).1 ≠
    Throw (already_has_edge (getName (a_task "T" UserTask))
             (memoryEdgeName edge_m_T_MM)).
Proof.
  split.
  - apply (MemoryEdge_applyEdge_duplicate_name two_graphs_m edge_m_T_MM
             (Some 10%N) 1%N T_with_m).
    + reflexivity.
    + vm_compute. reflexivity.
    + vm_compute. reflexivity.
  - apply (MemoryEdge_applyEdge_duplicate_name two_graphs edge_m_T_MM
             (Some 10%N) 1%N (a_task "T" UserTask)).
    + reflexivity.
    + vm_compute. reflexivity.
    + vm_compute. reflexivity.
Defined.

(** On the examples: the second application of the edge ends in the error,
    the first does not. *)
Example MemoryEdge_applyEdge_twice :
  MemoryEdge_applyEdge edge_m_T_MM (Some 10%N) two_graphs_m =
    (Throw "Error getMemoryTask: T already has the memory edge: m",
     two_graphs_m) ∧
  (MemoryEdge_applyEdge edge_m_T_MM (Some 10%N) two_graphs).1 = Ok tt.
Proof. split; vm_compute; reflexivity. Qed.



(** On the example: the error is the "already connected" one. *)
Example MemoryEdge_applyEdge_reuse_in_one_graph :
  (MemoryEdge_applyEdge edge_n_T_MM (Some 10%N) two_graphs_m).1 =
    Throw "Error memory manager: T is already connected to the graph! Are you trying to reuse the same memory manager instance?".
Proof. vm_compute. reflexivity. Qed.

(** C7.  After [MemoryEdge::applyEdge] has returned normally, the task
    manager of the memory manager has the release connector as its input
    and the get-memory connector as its output; the two are distinct
    connectors that did not exist before, each now with a producer count of
    one; and the task getting memory has, under the edge's name, the two
    connectors and the memory manager's type attached. *)
Theorem MemoryEdge_applyEdge_connects (e : MemoryEdge) (graph : ptr)
    (w w' : World) :
  MemoryEdge_applyEdge e graph w = (Ok tt, w') →
  ∃ ga ta ma type gc rc,
    graph = Some ga ∧ getMemoryTask e = Some ta ∧
    memoryManager e = Some ma ∧ type_of w ma = Some type ∧
    connectors w !! gc = None ∧ connectors w !! rc = None ∧ gc ≠ rc ∧
    inputConnector_of w' ga ma = Some rc ∧
    outputConnector_of w' ga ma = Some gc ∧
    producerCount_of w' gc = Some (N.succ (producerCount Connector_new)) ∧
    producerCount_of w' rc = Some (N.succ (producerCount Connector_new)) ∧
    memoryEdge_of w' ta (memoryEdgeName e) =
      Some {| getMemoryConnector := Some gc;
              releaseMemoryConnector := Some rc;
              attachedType := type |}.
Proof.
  intros H.
  apply MemoryEdge_applyEdge_inv_Ok in H
    as (ga & ta & ma & g & t & type & gc & rc & ? & ? & ? & _ & _ & _ & _
        & _ & _ & ? & ? & ? & ? & ? & ? & ? & ? & ?).
  by exists ga, ta, ma, type, gc, rc.
Qed.

Lemma MemoryEdge_applyEdge_connects_witness :
  ∃ ga ta ma type gc rc,
    Some 10%N = Some ga ∧ getMemoryTask edge_m_T_MM = Some ta ∧
    memoryManager edge_m_T_MM = Some ma ∧
    type_of two_graphs ma = Some type ∧
    connectors two_graphs !! gc = None ∧
    connectors two_graphs !! rc = None ∧ gc ≠ rc ∧
    inputConnector_of two_graphs_m ga ma = Some rc ∧
    outputConnector_of two_graphs_m ga ma = Some gc ∧
    producerCount_of two_graphs_m gc
      = Some (N.succ (producerCount Connector_new)) ∧
    producerCount_of two_graphs_m rc
      = Some (N.succ (producerCount Connector_new)) ∧
    memoryEdge_of two_graphs_m ta (memoryEdgeName edge_m_T_MM) =
      Some {| getMemoryConnector := Some gc;
              releaseMemoryConnector := Some rc;
              attachedType := type |}.
Proof.
  apply (MemoryEdge_applyEdge_connects edge_m_T_MM (Some 10%N) two_graphs
           two_graphs_m).
  vm_compute. reflexivity.
Defined.

(** ** EdgeDescriptor::copy *)

(** C8.  On a graph that carries the map from original tasks to clones,
    [copy(graph)] reproduces the edge against that map and changes no
    object: the copy of a memory edge has the same edge name, and its task
    getting memory and its memory manager are the clones that [getCopy]
    finds; the copy of a rule edge has the clones of the bookkeeper and of
    the consumer, and holds the very same rule as the original. *)
Theorem EdgeDescriptor_copy_clones (w : World) (ga : addr)
    (g : AnyTaskGraphConf) (d : EdgeDescriptor) :
  graphs w !! ga = Some g →
  ∃ d',
    copy d (Some ga) w = (Ok d', w) ∧
    match d, d' with
    | IsMemoryEdge e, IsMemoryEdge e' =>
        memoryEdgeName e' = memoryEdgeName e ∧
        getMemoryTask e' = getCopy g (getMemoryTask e) ∧
        memoryManager e' = getCopy g (memoryManager e)
    | IsRuleEdge e, IsRuleEdge e' =>
        bookkeeper e' = getCopy g (bookkeeper e) ∧
        consumer e' = getCopy g (consumer e) ∧
        rule e' = rule e
    | _, _ => False
    end.
Proof.
  intros Hg. destruct d as [e|e]; cbn [copy].
  - unfold MemoryEdge_copy.
    rewrite (bind_Ok _ _ _ _ _
               (bind_Ok _ _ _ _ _ (deref_Some graphs w ga g Hg))).
    eexists. split; [reflexivity|]. done.
  - unfold RuleEdge_copy.
    rewrite (bind_Ok _ _ _ _ _
               (bind_Ok _ _ _ _ _ (deref_Some graphs w ga g Hg))).
    eexists. split; [reflexivity|]. done.
Qed.

Lemma EdgeDescriptor_copy_clones_witness :
  ∃ d',
    copy (IsRuleEdge rule_edge_BK_T) (Some 10%N) two_graphs
      = (Ok d', two_graphs) ∧
    match d' with
    | IsRuleEdge e' =>
        bookkeeper e' = Some 23%N ∧ consumer e' = Some 21%N ∧
        rule e' = Some 50%N
    | IsMemoryEdge _ => False
    end.
Proof.
  destruct (EdgeDescriptor_copy_clones two_graphs 10%N graph10
              (IsRuleEdge rule_edge_BK_T) eq_refl)
    as (d' & Hcopy & Hd').
  exists d'. split; [exact Hcopy|].
  destruct d' as [e'|e']; [exact Hd'|].
  destruct Hd' as (Hb & Hc & Hr). rewrite Hb, Hc, Hr.
  vm_compute. repeat split; reflexivity.
Defined.

(** The copies of one rule edge into any two graphs hold one rule. *)
Lemma RuleEdge_copy_shares_rule e graph1 graph2 w1 w2 e1 e2 w1' w2' :
  RuleEdge_copy e graph1 w1 = (Ok e1, w1') →
  RuleEdge_copy e graph2 w2 = (Ok e2, w2') →
  rule e1 = rule e2.
Proof.
  unfold RuleEdge_copy. intros H1 H2.
  apply bind_inv_Ok in H1 as (g1 & ? & _ & H1).
  apply bind_inv_Ok in H2 as (g2 & ? & _ & H2).
  apply ret_inv_Ok in H1 as [-> _]. apply ret_inv_Ok in H2 as [-> _]. done.
Qed.

(** ** RuleEdge::applyEdge *)

Lemma inputConnector_of_with_TaskManager ga ta g w ta' :
  graphs w !! ga = Some g →
  inputConnector_of (with_TaskManager ga ta g w) ga ta'
  = inputConnector_of w ga ta'.
Proof.
  intros Hg. unfold inputConnector_of, taskManager_of, with_TaskManager.
  cbn. rewrite lookup_insert_eq, Hg. cbn.
  destruct (decide (ta = ta')) as [<-|Hne].
  - rewrite lookup_insert_eq. by destruct (taskManagers g !! ta).
  - by rewrite lookup_insert_ne.
Qed.

(** One [RuleEdge::applyEdge] that returned normally; the last clause is
    the connector store afterwards: the store before, with the one
    connector [c] counted up, [c] being new only when the consumer had no
    input connector. *)
Lemma RuleEdge_applyEdge_inv_Ok_connectors e graph w w' :
  RuleEdge_applyEdge e graph w = (Ok tt, w') →
  ∃ ga ba ca c,
    graph = Some ga ∧ bookkeeper e = Some ba ∧ consumer e = Some ca ∧
    match inputConnector_of w ga ca with
    | Some c0 => c = c0
    | None => connectors w !! c = None
    end ∧
    inputConnector_of w' ga ca = Some c ∧
    producerCount_of w' c
      = Some (N.succ (default 0%N (producerCount_of w c))) ∧
    (∀ b, ruleSchedulers_of w' b
          = (fun l => if decide (b = ba) then l ++ [scheduler_for c e] else l)
              <$> ruleSchedulers_of w b) ∧
    ∃ cc,
      connectors w'
        = <[c := Connector_incrementInputTaskCount cc]> (connectors w) ∧
      match inputConnector_of w ga ca with
      | Some _ => connectors w !! c = Some cc
      | None => cc = Connector_new
      end.
Proof.
  intros H. unfold RuleEdge_applyEdge in H.
  apply bind_inv_Ok in H as (r & w1 & H1 & H).
  apply getTaskManager_inv_Ok in H1
    as (ga & ba & g & -> & Hba & Hg & _ & ->).
  apply bind_inv_Ok in H as (r' & w1 & H1 & H).
  apply getTaskManager_inv_Ok in H1
    as (? & ca & g1 & [= <-] & Hca & Hg1 & -> & ->).
  apply bind_inv_Ok in H as (tm & w1 & H1 & H).
  apply read_TaskManager_inv_Ok in H1 as [-> Htm]. cbn in Htm.
  assert (Hin : getInputConnector tm = inputConnector_of w ga ca).
  { rewrite <- (inputConnector_of_with_TaskManager ga ba g w ca Hg).
    rewrite <- (inputConnector_of_with_TaskManager ga ca g1 _ ca Hg1).
    unfold inputConnector_of. by rewrite Htm. }
  clear Htm.
  set (w2 := with_TaskManager ga ca g1 (with_TaskManager ga ba g w)) in *.
  assert (Hw2g : ∃ g2, graphs w2 !! ga = Some g2).
  { eexists. unfold w2, with_TaskManager at 1. cbn.
    by rewrite lookup_insert_eq. }
  assert (Hw2c : connectors w2 = connectors w) by reflexivity.
  assert (Hw2t : tasks w2 = tasks w) by reflexivity.
  clearbody w2. clear Hg1 g1.
  apply bind_inv_Ok in H as (c & w3 & H1 & H).
  assert (Hw3 :
    tasks w3 = tasks w ∧ graphs w3 = graphs w2 ∧
    match inputConnector_of w ga ca with
    | Some c0 => c = c0 ∧ connectors w3 = connectors w
    | None => connectors w !! c = None ∧
              connectors w3 = <[c := Connector_new]> (connectors w)
    end).
  { rewrite <- Hin. destruct (getInputConnector tm) as [c0|].
    - apply ret_inv_Ok in H1 as [-> ->]. done.
    - rewrite new_Connector_run in H1. injection H1 as <- <-. cbn.
      rewrite Hw2c. split; [done|]. split; [done|].
      split; [apply fresh_connector|done]. }
  clear H1 Hin tm. destruct Hw3 as (Hw3t & Hw3g & Hw3c).
  apply bind_inv_Ok in H as (u & w4 & H1 & H).
  apply incrementInputTaskCount_inv_Ok in H1 as (cc & Hcc & ->).
  apply bind_inv_Ok in H as (u' & w5 & H1 & H).
  apply write_TaskManager_inv_Ok in H1 as (g4 & tm4 & Hg4 & Htm4 & ->).
  cbn in Hg4, Htm4.
  apply addRuleScheduler_inv_Ok in H as (ba' & t & l & Hba' & Ht & Hl & ->).
  rewrite Hba in Hba'. injection Hba' as <-. cbn in Ht.
  rewrite Hw3t in Ht.
  exists ga, ba, ca, c.
  split; [done|]. split; [done|]. split; [done|].
  split. { destruct (inputConnector_of w ga ca); by destruct Hw3c. }
  split.
  { unfold inputConnector_of, taskManager_of. cbn.
    rewrite lookup_insert_eq. cbn. by rewrite lookup_insert_eq. }
  split.
  { unfold producerCount_of. cbn. rewrite lookup_insert_eq. cbn.
    do 2 f_equal.
    destruct (inputConnector_of w ga ca) as [c0|];
      destruct Hw3c as [Hc Hw3c]; rewrite Hw3c in Hcc.
    - by rewrite Hcc.
    - rewrite lookup_insert_eq in Hcc. injection Hcc as <-.
      by rewrite Hc. }
  split.
  { intros b. unfold ruleSchedulers_of. cbn. rewrite Hw3t.
    destruct (decide (b = ba)) as [->|Hne].
    - rewrite lookup_insert_eq, Ht. cbn. by rewrite Hl.
    - rewrite lookup_insert_ne by done.
      destruct (tasks w !! b) as [tb|]; [|done]. cbn.
      by destruct (derived tb). }
  exists cc. cbn.
  destruct (inputConnector_of w ga ca) as [c0|];
    destruct Hw3c as [Hc Hw3c]; rewrite Hw3c in Hcc |- *.
  - done.
  - rewrite lookup_insert_eq in Hcc. injection Hcc as <-.
    by rewrite insert_insert_eq.
Qed.

Lemma RuleEdge_applyEdge_inv_Ok e graph w w' :
  RuleEdge_applyEdge e graph w = (Ok tt, w') →
  ∃ ga ba ca c,
    graph = Some ga ∧ bookkeeper e = Some ba ∧ consumer e = Some ca ∧
    match inputConnector_of w ga ca with
    | Some c0 => c = c0
    | None => connectors w !! c = None
    end ∧
    inputConnector_of w' ga ca = Some c ∧
    producerCount_of w' c
      = Some (N.succ (default 0%N (producerCount_of w c))) ∧
    (∀ b, ruleSchedulers_of w' b
          = (fun l => if decide (b = ba) then l ++ [scheduler_for c e] else l)
              <$> ruleSchedulers_of w b).
Proof.
  intros H. apply RuleEdge_applyEdge_inv_Ok_connectors in H
    as (ga & ba & ca & c & H1 & H2 & H3 & H4 & H5 & H6 & H7 & _).
  by exists ga, ba, ca, c.
Qed.

(** Rule edges into a consumer that already has input connector [c]: no
    connector comes or goes, and every other connector is as it was. *)
Lemma applyEdges_rule_edges_no_new_connector (es : list RuleEdge) :
  ∀ (w w' : World) (ga ca c : addr),
    Forall (fun e => consumer e = Some ca) es →
    inputConnector_of w ga ca = Some c →
    is_Some (connectors w !! c) →
    applyEdges (IsRuleEdge <$> es) (Some ga) w = (Ok tt, w') →
    dom (connectors w') = dom (connectors w) ∧
    (∀ c', c' ≠ c → connectors w' !! c' = connectors w !! c').
Proof.
  induction es as [|e es IH]; intros w w' ga ca c Hcons Hin Hc H.
  - apply ret_inv_Ok in H as [_ ->]. done.
  - apply Forall_cons in Hcons as [Hca Hcons].
    cbn [fmap list_fmap applyEdges] in H.
    apply bind_inv_Ok in H as ([] & w1 & H1 & H). cbn [applyEdge] in H1.
    apply RuleEdge_applyEdge_inv_Ok_connectors in H1
      as (? & ba & ? & c1 & [= <-] & _ & Hca' & Hc1 & Hin1 & _ & _
          & cc & Hconn & Hcc).
    rewrite Hca in Hca'. injection Hca' as <-.
    rewrite Hin in Hc1, Hcc. subst c1.
    destruct (IH w1 w' ga ca c Hcons Hin1) as [Hdom Hothers]; [|done|].
    { rewrite Hconn, lookup_insert_eq. by eexists. }
    split.
    + rewrite Hdom, Hconn. apply dom_insert_lookup_L. by eexists.
    + intros c' Hc'. rewrite Hothers, Hconn by done.
      by rewrite lookup_insert_ne.
Qed.

Lemma schedulers_one_more (c : addr) (e : RuleEdge) (es : list RuleEdge)
    (b ba : addr) (l : list RuleScheduler) :
  bookkeeper e = Some ba →
  (if decide (b = ba) then l ++ [scheduler_for c e] else l)
    ++ (scheduler_for c <$> filter (fun e => bookkeeper e = Some b) es)
  = l ++ (scheduler_for c
            <$> filter (fun e => bookkeeper e = Some b) (e :: es)).
Proof.
  intros Hba. rewrite filter_cons, Hba.
  destruct (decide (b = ba)) as [->|Hne].
  - rewrite decide_True by done. cbn. by rewrite <- app_assoc.
  - rewrite decide_False by congruence. done.
Qed.

(** Rule edges into a consumer that already has input connector [c]. *)
Lemma applyEdges_rule_edges_shared (es : list RuleEdge) :
  ∀ (w w' : World) (ga ca c : addr) (n : N),
    Forall (fun e => consumer e = Some ca) es →
    inputConnector_of w ga ca = Some c →
    producerCount_of w c = Some n →
    applyEdges (IsRuleEdge <$> es) (Some ga) w = (Ok tt, w') →
    inputConnector_of w' ga ca = Some c ∧
    producerCount_of w' c = Some (n + N.of_nat (length es))%N ∧
    (∀ b, ruleSchedulers_of w' b
          = (fun l => l ++ (scheduler_for c
                              <$> filter (fun e => bookkeeper e = Some b) es))
              <$> ruleSchedulers_of w b).
Proof.
  induction es as [|e es IH]; intros w w' ga ca c n Hcons Hin Hcount H.
  - apply ret_inv_Ok in H as [_ ->]. cbn.
    split; [done|]. split; [by rewrite N.add_0_r|].
    intros b. destruct (ruleSchedulers_of w b); cbn; [|done].
    by rewrite app_nil_r.
  - apply Forall_cons in Hcons as [Hca Hcons].
    cbn [fmap list_fmap applyEdges] in H.
    apply bind_inv_Ok in H as ([] & w1 & H1 & H). cbn [applyEdge] in H1.
    apply RuleEdge_applyEdge_inv_Ok in H1
      as (? & ba & ? & c1 & [= <-] & Hba & Hca' & Hc1 & Hin1 & Hcount1
          & Hsched1).
    rewrite Hca in Hca'. injection Hca' as <-.
    rewrite Hin in Hc1. subst c1. rewrite Hcount in Hcount1. cbn in Hcount1.
    destruct (IH w1 w' ga ca c (N.succ n) Hcons Hin1 Hcount1 H)
      as (Hin' & Hcount' & Hsched').
    split; [done|]. split.
    { rewrite Hcount'. f_equal. cbn [length]. lia. }
    intros b. rewrite Hsched', Hsched1, <- option_fmap_compose.
    apply option_fmap_ext. intros l.
    by apply schedulers_one_more.
Qed.

(** C10.  [RuleEdge::applyEdge] uses the input connector the consumer's
    task manager already has, and makes a new connector only when it has
    none: with an input connector set, the connectors after the call are
    the connectors before it; with none, exactly one connector, [c], has
    been added; in both cases every connector other than [c] is as it was.
    Each application raises the producer count of [c] by one and appends
    one rule scheduler, bound to [c] and holding the edge's rule, to the
    edge's bookkeeper.  So after [k] rule edges into one consumer were
    applied, the consumer has that one connector as input, its producer
    count has grown by [k], and every bookkeeper has gained, in order, one
    scheduler on that connector per edge that names it. *)
Theorem RuleEdge_applyEdge_shares_connector (es : list RuleEdge)
    (graph : ptr) (ca : addr) (w w' : World) :
  es ≠ [] →
  Forall (fun e => consumer e = Some ca) es →
  applyEdges (IsRuleEdge <$> es) graph w = (Ok tt, w') →
  ∃ ga c,
    graph = Some ga ∧
    match inputConnector_of w ga ca with
    | Some c0 => c = c0 ∧ dom (connectors w') = dom (connectors w)
    | None => connectors w !! c = None ∧
              dom (connectors w') = {[c]} ∪ dom (connectors w)
    end ∧
    (∀ c', c' ≠ c → connectors w' !! c' = connectors w !! c') ∧
    inputConnector_of w' ga ca = Some c ∧
    producerCount_of w' c
      = Some (default 0 (producerCount_of w c) + N.of_nat (length es))%N ∧
    (∀ b, ruleSchedulers_of w' b
          = (fun l => l ++ (scheduler_for c
                              <$> filter (fun e => bookkeeper e = Some b) es))
              <$> ruleSchedulers_of w b).
Proof.
  intros Hne Hcons H. destruct es as [|e es]; [done|]. clear Hne.
  apply Forall_cons in Hcons as [Hca Hcons].
  cbn [fmap list_fmap applyEdges] in H.
  apply bind_inv_Ok in H as ([] & w1 & H1 & H). cbn [applyEdge] in H1.
  apply RuleEdge_applyEdge_inv_Ok_connectors in H1
    as (ga & ba & ? & c & -> & Hba & Hca' & Hc & Hin1 & Hcount1 & Hsched1
        & cc & Hconn & Hcc).
  rewrite Hca in Hca'. injection Hca' as <-.
  destruct (applyEdges_rule_edges_shared es w1 w' ga ca c _
              Hcons Hin1 Hcount1 H) as (Hin' & Hcount' & Hsched').
  destruct (applyEdges_rule_edges_no_new_connector es w1 w' ga ca c
              Hcons Hin1) as [Hdom Hothers]; [|done|].
  { rewrite Hconn, lookup_insert_eq. by eexists. }
  exists ga, c. split; [done|]. split.
  { rewrite Hdom, Hconn.
    destruct (inputConnector_of w ga ca) as [c0|].
    - split; [done|]. apply dom_insert_lookup_L. by eexists.
    - split; [done|]. apply dom_insert_L. }
  split.
  { intros c' Hc'. rewrite Hothers, Hconn by done.
    by rewrite lookup_insert_ne. }
  split; [done|]. split.
  { rewrite Hcount'. f_equal. cbn [length]. lia. }
  intros b. rewrite Hsched', Hsched1, <- option_fmap_compose.
  apply option_fmap_ext. intros l.
  by apply schedulers_one_more.
Qed.

(** Two rule edges into [T], which has no input connector yet: one
    connector is made; a third rule edge into [T] then makes none. *)
Lemma RuleEdge_applyEdge_shares_connector_witness :
  (∃ ga c,
    Some 10%N = Some ga ∧
    match inputConnector_of two_graphs ga 1 with
    | Some c0 =>
        c = c0 ∧ dom (connectors two_graphs_rules) = dom (connectors two_graphs)
    | None => connectors two_graphs !! c = None ∧
              dom (connectors two_graphs_rules)
                = {[c]} ∪ dom (connectors two_graphs)
    end ∧
    (∀ c', c' ≠ c →
           connectors two_graphs_rules !! c' = connectors two_graphs !! c') ∧
    inputConnector_of two_graphs_rules ga 1 = Some c ∧
    producerCount_of two_graphs_rules c
      = Some (default 0 (producerCount_of two_graphs c) + 2)%N ∧
    (∀ b, ruleSchedulers_of two_graphs_rules b
          = (fun l => l ++ (scheduler_for c
                              <$> filter (fun e => bookkeeper e = Some b)
                                    [rule_edge_BK_T;
                                     rule_edge_BK_T_other_rule]))
              <$> ruleSchedulers_of two_graphs b)) ∧
  (∃ ga c,
    Some 10%N = Some ga ∧
    match inputConnector_of two_graphs_rules ga 1 with
    | Some c0 =>
        c = c0 ∧
        dom (connectors two_graphs_three_rules)
          = dom (connectors two_graphs_rules)
    | None => connectors two_graphs_rules !! c = None ∧
              dom (connectors two_graphs_three_rules)
                = {[c]} ∪ dom (connectors two_graphs_rules)
    end ∧
    (∀ c', c' ≠ c →
           connectors two_graphs_three_rules !! c'
             = connectors two_graphs_rules !! c') ∧
    inputConnector_of two_graphs_three_rules ga 1 = Some c ∧
    producerCount_of two_graphs_three_rules c
      = Some (default 0 (producerCount_of two_graphs_rules c) + 1)%N ∧
    (∀ b, ruleSchedulers_of two_graphs_three_rules b
          = (fun l => l ++ (scheduler_for c
                              <$> filter (fun e => bookkeeper e = Some b)
                                    [rule_edge_BK_T]))
              <$> ruleSchedulers_of two_graphs_rules b)).
Proof.
  split.
  - apply (RuleEdge_applyEdge_shares_connector
             [rule_edge_BK_T; rule_edge_BK_T_other_rule] (Some 10%N) 1%N
             two_graphs two_graphs_rules).
    + discriminate.
    + repeat constructor.
    + vm_compute. reflexivity.
  - apply (RuleEdge_applyEdge_shares_connector
             [rule_edge_BK_T] (Some 10%N) 1%N
             two_graphs_rules two_graphs_three_rules).
    + discriminate.
    + repeat constructor.
    + vm_compute. reflexivity.
Defined.

(** On the example: one connector, two producers, two schedulers. *)
Example RuleEdge_applyEdge_twice :
  inputConnector_of two_graphs_rules 10 1 = Some 0%N ∧
  producerCount_of two_graphs_rules 0 = Some 2%N ∧
  ruleSchedulers_of two_graphs_rules 3 =
    Some [ {| rs_rule := Some 50%N; rs_outputConnector := Some 0%N |};
           {| rs_rule := Some 51%N; rs_outputConnector := Some 0%N |} ].
Proof. repeat split; vm_compute; reflexivity. Qed.

(** ** When the edges return normally *)

Lemma write_TaskManager_run ga ta g tm f w :
  graphs w !! ga = Some g → taskManagers g !! ta = Some tm →
  write_TaskManager {| ref_graph := ga; ref_task := ta |} f w =
    (Ok tt, set_graphs <[ga := set_taskManagers <[ta := f tm]> g]> w).
Proof.
  intros Hg Htm. unfold write_TaskManager. cbn.
  rewrite (bind_Ok _ _ _ _ _ (deref_Some graphs w ga g Hg)).
  by rewrite Htm.
Qed.

Lemma incrementInputTaskCount_run a c w :
  connectors w !! a = Some c →
  incrementInputTaskCount a w =
    (Ok tt, set_connectors <[a := Connector_incrementInputTaskCount c]> w).
Proof.
  intros Hc. unfold incrementInputTaskCount.
  by rewrite (bind_Ok _ _ _ _ _ (deref_Some connectors w a c Hc)).
Qed.

Lemma getType_run a type w :
  type_of w a = Some type → getType (Some a) w = (Ok type, w).
Proof.
  unfold type_of, getType. intros H.
  destruct (tasks w !! a) as [t|] eqn:Ht; [|done]. cbn in H.
  rewrite (bind_Ok _ _ _ _ _ (deref_Some tasks w a t Ht)).
  destruct (derived t); by simplify_eq.
Qed.

Lemma addRuleScheduler_run a rs l w :
  ruleSchedulers_of w a = Some l →
  ∃ w', addRuleScheduler (Some a) rs w = (Ok tt, w').
Proof.
  unfold ruleSchedulers_of, addRuleScheduler. intros H.
  destruct (tasks w !! a) as [t|] eqn:Ht; [|done]. cbn in H.
  unfold bind at 1. cbn.
  rewrite (bind_Ok _ _ _ _ _ (deref_Some tasks w a t Ht)).
  destruct (derived t); try done. by eexists.
Qed.

(** [MemoryEdge::applyEdge] returns normally when the task getting memory
    is in the graph and has no edge of that name yet, the memory manager is
    a live memory manager, and the graph's task manager for it, if any, has
    no connector. *)
Lemma MemoryEdge_applyEdge_returns w e ga g ta t ma type :
  getMemoryTask e = Some ta → tasks w !! ta = Some t →
  hasMemoryEdge t (memoryEdgeName e) = false →
  graphs w !! ga = Some g → hasTask g (Some ta) = true →
  memoryManager e = Some ma → type_of w ma = Some type →
  inputConnector_of w ga ma = None → outputConnector_of w ga ma = None →
  ∃ w', MemoryEdge_applyEdge e (Some ga) w = (Ok tt, w').
Proof.
  intros Hta Ht Hhas Hg HhasTask Hma Htype Hin Hout.
  unfold MemoryEdge_applyEdge.
  rewrite Hta, (bind_Ok _ _ _ _ _ (deref_Some tasks w ta t Ht)), Hhas.
  rewrite (bind_Ok _ _ _ _ _ (deref_Some graphs w ga g Hg)), HhasTask.
  cbn [negb].
  rewrite Hma, (bind_Ok _ _ _ _ _ (getTaskManager_run ga ma g w Hg)).
  rewrite (bind_Ok _ _ _ _ _ (new_Connector_run _)).
  rewrite (bind_Ok _ _ _ _ _ (new_Connector_run _)).
  cbn [connectors with_TaskManager set_graphs set_connectors].
  set (gc := fresh (dom (connectors w))).
  set (rc := fresh (dom (<[gc := Connector_new]> (connectors w)))).
  assert (Hne : gc ≠ rc).
  { intros Heq.
    assert (Hrc : <[gc := Connector_new]> (connectors w) !! rc = None)
      by apply not_elem_of_dom, is_fresh.
    by rewrite <- Heq, lookup_insert_eq in Hrc. }
  set (tm := default (TaskManager_new ma) (taskManagers g !! ma)).
  assert (Htm_in : getInputConnector tm = None).
  { unfold inputConnector_of, taskManager_of in Hin. rewrite Hg in Hin.
    cbn in Hin. unfold tm. by destruct (taskManagers g !! ma). }
  assert (Htm_out : getOutputConnector tm = None).
  { unfold outputConnector_of, taskManager_of in Hout. rewrite Hg in Hout.
    cbn in Hout. unfold tm. by destruct (taskManagers g !! ma). }
  erewrite bind_Ok; last first.
  { apply read_TaskManager_run. unfold taskManager_of. cbn.
    rewrite lookup_insert_eq. cbn. apply lookup_insert_eq. }
  fold tm. rewrite Htm_in, Htm_out.
  rewrite !bool_decide_eq_false_2 by (intros H; by apply H).
  erewrite bind_Ok; last first.
  { eapply write_TaskManager_run; cbn; [apply lookup_insert_eq|].
    cbn. apply lookup_insert_eq. }
  erewrite bind_Ok; last first.
  { eapply write_TaskManager_run; cbn; [apply lookup_insert_eq|].
    cbn. apply lookup_insert_eq. }
  erewrite bind_Ok; last first.
  { apply incrementInputTaskCount_run. cbn.
    by rewrite lookup_insert_ne, lookup_insert_eq. }
  erewrite bind_Ok; last first.
  { apply incrementInputTaskCount_run. cbn.
    by rewrite lookup_insert_ne, lookup_insert_eq. }
  erewrite bind_Ok; last first.
  { apply getType_run. exact Htype. }
  unfold bind at 1. cbn.
  erewrite bind_Ok; last first.
  { apply deref_Some. cbn. exact Ht. }
  by eexists.
Qed.

(** [RuleEdge::applyEdge] returns normally when the graph is live, the
    bookkeeper is a live bookkeeper, and the consumer's input connector, if
    it has one, is live. *)
Lemma RuleEdge_applyEdge_returns w e ga g ba ca l :
  graphs w !! ga = Some g →
  bookkeeper e = Some ba → ruleSchedulers_of w ba = Some l →
  consumer e = Some ca →
  (∀ c, inputConnector_of w ga ca = Some c → is_Some (connectors w !! c)) →
  ∃ w', RuleEdge_applyEdge e (Some ga) w = (Ok tt, w').
Proof.
  intros Hg Hba Hl Hca Hlive. unfold RuleEdge_applyEdge.
  rewrite Hba, (bind_Ok _ _ _ _ _ (getTaskManager_run ga ba g w Hg)).
  set (w1 := with_TaskManager ga ba g w).
  assert (Hg1 : ∃ g1, graphs w1 !! ga = Some g1).
  { eexists. unfold w1, with_TaskManager. cbn. by rewrite lookup_insert_eq. }
  destruct Hg1 as [g1 Hg1].
  rewrite Hca, (bind_Ok _ _ _ _ _ (getTaskManager_run ga ca g1 w1 Hg1)).
  set (w2 := with_TaskManager ga ca g1 w1).
  assert (Hin2 : inputConnector_of w2 ga ca = inputConnector_of w ga ca).
  { unfold w2. rewrite inputConnector_of_with_TaskManager by done.
    unfold w1. by rewrite inputConnector_of_with_TaskManager. }
  assert (Htm2 : ∃ tm, taskManager_of w2 ga ca = Some tm).
  { eexists. unfold w2, with_TaskManager, taskManager_of. cbn.
    rewrite lookup_insert_eq. cbn. by rewrite lookup_insert_eq. }
  destruct Htm2 as [tm Htm2].
  rewrite (bind_Ok _ _ _ _ _ (read_TaskManager_run ga ca w2 tm Htm2)).
  assert (Hin : getInputConnector tm = inputConnector_of w ga ca).
  { rewrite <- Hin2. unfold inputConnector_of. by rewrite Htm2. }
  assert (Hg2 : ∃ g2, graphs w2 !! ga = Some g2 ∧
                      taskManagers g2 !! ca = Some tm).
  { unfold taskManager_of in Htm2.
    destruct (graphs w2 !! ga) as [g2|]; [|done]. by exists g2. }
  destruct Hg2 as (g2 & Hg2 & Hca2).
  assert (Hconn : ∃ c w3 cc,
    match getInputConnector tm with
    | Some c => ret c
    | None => new_Connector
    end w2 = (Ok c, w3) ∧
    connectors w3 !! c = Some cc ∧ graphs w3 = graphs w2 ∧
    tasks w3 = tasks w).
  { destruct (getInputConnector tm) as [c|] eqn:Hc.
    - destruct (Hlive c) as [cc Hcc]; [congruence|].
      exists c, w2, cc. done.
    - eexists _, _, Connector_new. rewrite new_Connector_run.
      split; [reflexivity|]. cbn. by rewrite lookup_insert_eq. }
  destruct Hconn as (c & w3 & cc & Hrun & Hcc & Hg3 & Ht3).
  rewrite (bind_Ok _ _ _ _ _ Hrun).
  rewrite (bind_Ok _ _ _ _ _ (incrementInputTaskCount_run c cc w3 Hcc)).
  erewrite bind_Ok; last first.
  { apply (write_TaskManager_run ga ca g2 tm); cbn; [|done].
    by rewrite Hg3. }
  apply (addRuleScheduler_run ba _ l).
  unfold ruleSchedulers_of in *. cbn. by rewrite Ht3.
Qed.

(** ** ICudaTask: further properties *)

Lemma grows_refl m : grows m m.
Proof. by repeat split. Qed.

Lemma grows_trans m1 m2 m3 : grows m1 m2 → grows m2 m3 → grows m1 m3.
Proof.
  intros (a1 & b1 & c1 & d1 & e1 & f1) (a2 & b2 & c2 & d2 & e2 & f2).
  repeat split; try congruence; by etrans.
Qed.

Lemma probe_grows rt i m : grows m (probe rt i m).2.
Proof.
  destruct (array_read (cudaIds (this m)) i) as [peer|] eqn:E.
  - rewrite (probe_step rt m i peer E). cbn.
    repeat split; try done; by apply prefix_app_r.
  - unfold probe, bind, field. rewrite E. apply grows_refl.
Qed.

Lemma probe_loop_grows rt n : ∀ i m, grows m (probe_loop rt i n m).2.
Proof.
  induction n as [|n IH]; intros i m; cbn; [apply grows_refl|].
  unfold bind. pose proof (probe_grows rt i m) as H.
  destruct (probe rt i m) as [[[]|w|] m1]; cbn in H; try done.
  eapply grows_trans; [exact H|apply IH].
Qed.

(** X1.  Whatever [initialize] ends in, it has not changed [cudaIds],
    [numGpus], the pipeline id or the flag, and it has only appended to
    [nonPeerDevIds] and to the calls made: no entry of [nonPeerDevIds] is
    ever removed or reordered. *)
Theorem initialize_only_appends (rt : CudaRuntime) (m : Machine) :
  grows m (initialize rt m).2.
Proof.
  destruct m as [t tr]. unfold initialize, HTGS_ASSERT.
  unfold bind at 1 2 3 4 5 6 7 8 9 10. unfold field, update, call, modify.
  cbn. destruct (array_read (cudaIds t) (pipelineId t)) as [id|];
    [|apply grows_refl].
  cbn. destruct (id <? deviceCount rt)%Z; cbn.
  2:{ repeat split; try done. by apply prefix_app_r. }
  assert (H0 : ∀ m1,
    grows {| this := set_stream (newStream rt) (set_cudaId id t);
             trace := ((tr ++ [cudaGetDeviceCount])
                         ++ [cudaSetDevice id]) ++ [cudaStreamCreate] |} m1 →
    grows {| this := t; trace := tr |} m1).
  { intros m1. apply grows_trans. repeat split; try done. cbn.
    rewrite <- !app_assoc. by apply prefix_app_r. }
  assert (H1 : ∀ m1 : Machine,
    grows m1 {| this := this m1; trace := trace m1 ++ [initializeCudaGPU] |}).
  { intros m1. repeat split; try done. by apply prefix_app_r. }
  destruct (autoEnablePeerAccess t); cbn.
  - unfold bind. cbn. match goal with
    | |- context [probe_loop rt ?i ?n ?s] =>
        pose proof (probe_loop_grows rt n i s) as H;
        destruct (probe_loop rt i n s) as [[[]|w|] m1]
    end; cbn in *; apply H0; try done.
    eapply grows_trans; [exact H|apply H1].
  - apply H0, H1.
Qed.

(** X2.  When the selected id is below the device count and the loop stays
    inside [cudaIds], [initialize] returns after exactly these calls, in
    this order: the device count is asked for, the device is selected, the
    stream is created; then, only when the [autoEnablePeerAccess] field
    reads [true], the first [numGpus] entries of [cudaIds] other than the
    selected id are probed one by one in their order (each accessible one
    enabled right after its probe), and with the field [false] no probe is
    made; the [initializeCudaGPU] hook runs last. *)
Theorem initialize_call_sequence (rt : CudaRuntime) (m : Machine) (id : Z) :
  array_read (cudaIds (this m)) (pipelineId (this m)) = Some id →
  (id < deviceCount rt)%Z →
  N.to_nat (numGpus (this m)) ≤ length (cudaIds (this m)) →
  ∃ m',
    initialize rt m = (Ok tt, m') ∧
    trace m' =
      trace m
        ++ [cudaGetDeviceCount; cudaSetDevice id; cudaStreamCreate]
        ++ flat_map (probe_calls rt id)
             (if autoEnablePeerAccess (this m)
              then take (N.to_nat (numGpus (this m))) (cudaIds (this m))
              else [])
        ++ [initializeCudaGPU].
Proof.
  intros Hid Hlt Hlen. eexists. split.
  - by apply initialize_run.
  - reflexivity.
Qed.

Lemma initialize_call_sequence_witness :
  ∃ m',
    initialize four_gpus (start task_over_gpus_2_3) = (Ok tt, m') ∧
    trace m' =
      [cudaGetDeviceCount; cudaSetDevice 2; cudaStreamCreate;
       cudaDeviceCanAccessPeer 2 3; initializeCudaGPU].
Proof.
  apply (initialize_call_sequence four_gpus (start task_over_gpus_2_3) 2).
  - reflexivity.
  - reflexivity.
  - vm_compute. lia.
Defined.

(** X3.  With the flag off and the selected id below the device count,
    [initialize] returns whatever [numGpus] is, makes the three set-up
    calls and the hook call only, and leaves [nonPeerDevIds] as it was. *)
Theorem initialize_disabled_probes_nothing (rt : CudaRuntime) (m : Machine)
    (id : Z) :
  autoEnablePeerAccess (this m) = false →
  array_read (cudaIds (this m)) (pipelineId (this m)) = Some id →
  (id < deviceCount rt)%Z →
  initialize rt m =
    (Ok tt,
     {| this := set_stream (newStream rt) (set_cudaId id (this m));
        trace := trace m ++ [cudaGetDeviceCount; cudaSetDevice id;
                             cudaStreamCreate; initializeCudaGPU] |}).
Proof.
  intros Hflag Hid Hlt. destruct m as [t tr]. cbn in *.
  unfold initialize, HTGS_ASSERT.
  unfold bind at 1 2 3 4 5 6 7 8 9 10. unfold field, update, call, modify.
  cbn. rewrite Hid. cbn.
  destruct (Z.ltb_spec id (deviceCount rt)) as [_|?]; [|lia]. cbn.
  rewrite Hflag. cbn. by rewrite <- !app_assoc.
Qed.

Lemma initialize_disabled_probes_nothing_witness :
  initialize two_gpus_no_peer_access
    (start (ICudaTask_ctor_default storage_holding_false [0; 1]%Z 9)) =
    (Ok tt,
     {| this :=
          set_stream 1
            (set_cudaId 0
               (ICudaTask_ctor_default storage_holding_false [0; 1]%Z 9));
        trace := [cudaGetDeviceCount; cudaSetDevice 0; cudaStreamCreate;
                  initializeCudaGPU] |}).
Proof.
  apply (initialize_disabled_probes_nothing two_gpus_no_peer_access
           (start (ICudaTask_ctor_default storage_holding_false
                     [0; 1]%Z 9)) 0);
    reflexivity.
Defined.

Lemma enable_in_probe_calls rt id x peer flags :
  cudaDeviceEnablePeerAccess peer flags ∈ probe_calls rt id x ↔
  peer = x ∧ flags = 0%Z ∧ x ≠ id ∧ canAccessPeer rt id x ≠ 0%Z.
Proof.
  unfold probe_calls.
  destruct (Z.eqb_spec x id) as [->|Hne].
  { split; [by intros ?%elem_of_nil|]. by intros (_ & _ & ? & _). }
  rewrite elem_of_cons.
  destruct (Z.eqb_spec (canAccessPeer rt id x) 0) as [H0|H0].
  - split; [|by intros (_ & _ & _ & ?)].
    intros [?|?%elem_of_nil]; done.
  - rewrite list_elem_of_singleton.
    split; [intros [?|?]|intros (-> & -> & _ & _)];
      [done|by simplify_eq|by right].
Qed.

(** X4.  [initialize] enables peer access to exactly the other GPUs among
    the first [numGpus] entries of [cudaIds] that reported to be
    accessible, always with flags 0; it never enables access to the task's
    own GPU, to a GPU that denied access, or with the flag off. *)
Theorem initialize_enables_accessible_peers (rt : CudaRuntime)
    (t : ICudaTask) (id : Z) :
  array_read (cudaIds t) (pipelineId t) = Some id →
  (id < deviceCount rt)%Z →
  N.to_nat (numGpus t) ≤ length (cudaIds t) →
  ∃ m',
    initialize rt (start t) = (Ok tt, m') ∧
    ∀ peer flags,
      cudaDeviceEnablePeerAccess peer flags ∈ trace m' ↔
      autoEnablePeerAccess t = true ∧ flags = 0%Z ∧
      peer ∈ take (N.to_nat (numGpus t)) (cudaIds t) ∧
      peer ≠ id ∧ canAccessPeer rt id peer ≠ 0%Z.
Proof.
  intros Hid Hlt Hlen. eexists. split.
  { by apply (initialize_run rt (start t) id). }
  intros peer flags. cbn.
  rewrite !elem_of_cons, elem_of_app, list_elem_of_singleton.
  rewrite list_elem_of_In, in_flat_map.
  split.
  - intros [?|[?|[?|[(x & Hx & Hin)|?]]]]; try done.
    apply list_elem_of_In, enable_in_probe_calls in Hin
      as (-> & -> & Hne & Hacc).
    destruct (autoEnablePeerAccess t); [|done].
    by apply list_elem_of_In in Hx.
  - intros (Hflag & -> & Hin & Hne & Hacc). rewrite Hflag.
    do 3 right. left. exists peer. split; [by apply list_elem_of_In|].
    by apply list_elem_of_In, enable_in_probe_calls.
Qed.

Lemma initialize_enables_accessible_peers_witness :
  ∃ m',
    initialize four_gpus
      (start (ICudaTask_ctor_default storage_holding_true [0; 2; 3]%Z 3))
      = (Ok tt, m') ∧
    ∀ peer flags,
      cudaDeviceEnablePeerAccess peer flags ∈ trace m' ↔
      true = true ∧ flags = 0%Z ∧ peer ∈ [0; 2; 3]%Z ∧
      peer ≠ 0%Z ∧ canAccessPeer four_gpus 0 peer ≠ 0%Z.
Proof.
  apply (initialize_enables_accessible_peers four_gpus
           (ICudaTask_ctor_default storage_holding_true [0; 2; 3]%Z 3) 0).
  - reflexivity.
  - reflexivity.
  - vm_compute. lia.
Defined.

(** The first [initialize] of a task as the constructor leaves it. *)
Lemma initialize_first_run (rt : CudaRuntime) (t : ICudaTask) (id : Z) :
  well_formed t → nonPeerDevIds t = [] →
  array_read (cudaIds t) (pipelineId t) = Some id →
  (id < deviceCount rt)%Z →
  let peers := if autoEnablePeerAccess t then cudaIds t else [] in
  initialize rt (start t) =
    (Ok tt,
     {| this :=
          set_nonPeerDevIds (List.filter (denied rt id) peers)
            (set_stream (newStream rt) (set_cudaId id t));
        trace :=
          [cudaGetDeviceCount; cudaSetDevice id; cudaStreamCreate]
            ++ flat_map (probe_calls rt id) peers
            ++ [initializeCudaGPU] |}).
Proof.
  intros Hwf Hnil Hid Hlt. unfold well_formed in Hwf.
  rewrite (initialize_run rt (start t) id); cbn; try done; [|lia].
  by rewrite Hnil, Hwf, Nat2N.id, firstn_all.
Qed.

Lemma array_read_elem_of (a : list Z) (i : N) (x : Z) :
  array_read a i = Some x → x ∈ a.
Proof.
  rewrite array_read_lookup. intros H. apply list_elem_of_lookup. eauto.
Qed.

Lemma filter_denied_elem_of rt id (l : list Z) (x : Z) :
  bool_decide (x ∈ List.filter (denied rt id) l)
  = bool_decide (x ∈ l) && denied rt id x.
Proof.
  destruct (denied rt id x) eqn:Hd.
  - rewrite andb_true_r. apply bool_decide_ext.
    rewrite list_elem_of_In, filter_In, <- list_elem_of_In. tauto.
  - rewrite andb_false_r. apply bool_decide_eq_false.
    rewrite list_elem_of_In, filter_In. intros [_ ?]. congruence.
Qed.

(** X5.  After the first [initialize] of a task over [numGpus] ids,
    [requiresCopy(p)] is true exactly when the flag is on, pipeline [p]
    runs on another GPU than this task, and this task's GPU was denied
    access to it. *)
Theorem requiresCopy_after_initialize (rt : CudaRuntime) (t : ICudaTask)
    (id : Z) :
  well_formed t → nonPeerDevIds t = [] →
  array_read (cudaIds t) (pipelineId t) = Some id →
  (id < deviceCount rt)%Z →
  ∃ m',
    initialize rt (start t) = (Ok tt, m') ∧
    ∀ p src,
      array_read (cudaIds t) p = Some src →
      requiresCopy p m' =
        (Ok (autoEnablePeerAccess t && denied rt id src), m').
Proof.
  intros Hwf Hnil Hid Hlt. eexists. split.
  { by apply initialize_first_run. }
  intros p src Hsrc. rewrite (requiresCopy_read _ p src) by done.
  cbn. f_equal. f_equal. rewrite filter_denied_elem_of.
  destruct (autoEnablePeerAccess t); cbn.
  - by rewrite (bool_decide_eq_true_2 _ (array_read_elem_of _ _ _ Hsrc)).
  - by rewrite (bool_decide_eq_false_2 _ (not_elem_of_nil src)).
Qed.

Lemma requiresCopy_after_initialize_witness :
  ∃ m',
    initialize two_gpus_no_peer_access (start two_gpus_peer1_denied)
      = (Ok tt, m') ∧
    ∀ p src,
      array_read (cudaIds two_gpus_peer1_denied) p = Some src →
      requiresCopy p m' =
        (Ok (autoEnablePeerAccess two_gpus_peer1_denied
             && denied two_gpus_no_peer_access 0 src), m').
Proof.
  apply (requiresCopy_after_initialize two_gpus_no_peer_access
           two_gpus_peer1_denied 0); reflexivity.
Defined.

(** X6.  After the first [initialize], [autoCopy] of data that lives on
    this task's own GPU returns [false] and issues no call, whatever the
    peer-access matrix says. *)
Theorem autoCopy_own_gpu_never_copies (rt : CudaRuntime) (t : ICudaTask)
    (id : Z) (sizeofV : N) (destination : devptr) (data : MemoryData)
    (numElems : Z) :
  well_formed t → nonPeerDevIds t = [] →
  array_read (cudaIds t) (pipelineId t) = Some id →
  (id < deviceCount rt)%Z →
  array_read (cudaIds t) (getPipelineId data) = Some id →
  ∃ m',
    initialize rt (start t) = (Ok tt, m') ∧
    autoCopy sizeofV destination data numElems m' = (Ok false, m').
Proof.
  intros Hwf Hnil Hid Hlt Hdata. eexists. split.
  { by apply initialize_first_run. }
  unfold autoCopy, requiresCopy_data.
  erewrite bind_Ok; last first.
  { apply (requiresCopy_read _ _ id). exact Hdata. }
  cbn. rewrite filter_denied_elem_of. unfold denied at 1.
  by rewrite Z.eqb_refl, andb_false_r.
Qed.

Lemma autoCopy_own_gpu_never_copies_witness :
  ∃ m',
    initialize two_gpus_no_peer_access (start two_gpus_peer1_denied)
      = (Ok tt, m') ∧
    autoCopy 4 100 {| getPipelineId := 0; get_ := 200 |} 8 m'
      = (Ok false, m').
Proof.
  apply (autoCopy_own_gpu_never_copies two_gpus_no_peer_access
           two_gpus_peer1_denied 0); reflexivity.
Defined.

Lemma requiresCopy_same_answer (m1 m2 : Machine) (p : N) :
  cudaIds (this m2) = cudaIds (this m1) →
  (∀ x, x ∈ nonPeerDevIds (this m2) ↔ x ∈ nonPeerDevIds (this m1)) →
  (requiresCopy p m2).1 = (requiresCopy p m1).1.
Proof.
  intros Hids Hv.
  destruct (array_read (cudaIds (this m1)) p) as [src|] eqn:Hsrc.
  - rewrite (requiresCopy_read m1 p src) by done.
    rewrite (requiresCopy_read m2 p src) by (by rewrite Hids).
    cbn. f_equal. by apply bool_decide_ext.
  - destruct (nonPeerDevIds (this m1)) as [|y1 v1] eqn:H1.
    + destruct (nonPeerDevIds (this m2)) as [|y2 v2] eqn:H2.
      * by rewrite !requiresCopy_nothing_denied.
      * destruct (not_elem_of_nil y2). apply Hv, list_elem_of_here.
    + destruct (nonPeerDevIds (this m2)) as [|y2 v2] eqn:H2.
      * destruct (not_elem_of_nil y1). apply Hv, list_elem_of_here.
      * rewrite (requiresCopy_unread m1), (requiresCopy_unread m2);
          [done| by rewrite Hids | by rewrite H2 | done | by rewrite H1].
Qed.

(** X7.  [initialize] does not clear [nonPeerDevIds]: run a second time on
    the same machine, it records every denied peer once more, so the list
    doubles; the answers of [requiresCopy] stay as they were. *)
Theorem initialize_twice_doubles (rt : CudaRuntime) (t : ICudaTask) (id : Z) :
  well_formed t → nonPeerDevIds t = [] →
  array_read (cudaIds t) (pipelineId t) = Some id →
  (id < deviceCount rt)%Z →
  ∃ m1 m2,
    initialize rt (start t) = (Ok tt, m1) ∧
    initialize rt m1 = (Ok tt, m2) ∧
    nonPeerDevIds (this m2)
      = nonPeerDevIds (this m1) ++ nonPeerDevIds (this m1) ∧
    ∀ p, (requiresCopy p m2).1 = (requiresCopy p m1).1.
Proof.
  intros Hwf Hnil Hid Hlt. unfold well_formed in Hwf.
  eexists. eexists. split; [by apply initialize_first_run|].
  split.
  { apply (initialize_run rt _ id); cbn; [done|done|]. rewrite Hwf. lia. }
  split. { cbn. by rewrite Hwf, Nat2N.id, firstn_all. }
  intros p. apply requiresCopy_same_answer; [done|].
  intros x. cbn. rewrite elem_of_app.
  rewrite Hwf, Nat2N.id, firstn_all. tauto.
Qed.

Lemma initialize_twice_doubles_witness :
  ∃ m1 m2,
    initialize two_gpus_no_peer_access (start two_gpus_peer1_denied)
      = (Ok tt, m1) ∧
    initialize two_gpus_no_peer_access m1 = (Ok tt, m2) ∧
    nonPeerDevIds (this m2)
      = nonPeerDevIds (this m1) ++ nonPeerDevIds (this m1) ∧
    ∀ p, (requiresCopy p m2).1 = (requiresCopy p m1).1.
Proof.
  apply (initialize_twice_doubles two_gpus_no_peer_access
           two_gpus_peer1_denied 0); reflexivity.
Defined.

(** X8.  When [cudaIds] lists no GPU twice, the first [initialize] leaves
    [nonPeerDevIds] without duplicates, and the task's own GPU is never in
    it. *)
Theorem initialize_nonPeerDevIds_NoDup (rt : CudaRuntime) (t : ICudaTask)
    (id : Z) :
  NoDup (cudaIds t) →
  well_formed t → nonPeerDevIds t = [] →
  array_read (cudaIds t) (pipelineId t) = Some id →
  (id < deviceCount rt)%Z →
  ∃ m',
    initialize rt (start t) = (Ok tt, m') ∧
    NoDup (nonPeerDevIds (this m')) ∧
    cudaId (this m') ∉ nonPeerDevIds (this m').
Proof.
  intros Hnd Hwf Hnil Hid Hlt. eexists. split.
  { by apply initialize_first_run. }
  cbn. split.
  - apply NoDup_ListNoDup, List.NoDup_filter, NoDup_ListNoDup.
    destruct (autoEnablePeerAccess t); [done|]. constructor.
  - rewrite list_elem_of_In, filter_In. intros [_ H].
    unfold denied in H. by rewrite Z.eqb_refl in H.
Qed.

Lemma initialize_nonPeerDevIds_NoDup_witness :
  ∃ m',
    initialize two_gpus_no_peer_access (start two_gpus_peer1_denied)
      = (Ok tt, m') ∧
    NoDup (nonPeerDevIds (this m')) ∧
    cudaId (this m') ∉ nonPeerDevIds (this m').
Proof.
  apply (initialize_nonPeerDevIds_NoDup two_gpus_no_peer_access
           two_gpus_peer1_denied 0); try reflexivity.
  apply NoDup_cons. split; [|apply NoDup_singleton].
  intros H%list_elem_of_singleton. discriminate.
Defined.

Lemma bind_Undefined_aux {S A B} (m : M S A) (k : A -> M S B) s s' :
  m s = (Undefined, s') → bind m k s = (Undefined, s').
Proof. intros H. unfold bind. by rewrite H. Qed.

(** X9.  [hasPeerToPeerCopy] indexes [cudaIds] with the task's CUDA id, not
    with a pipeline id.  Whenever the CUDA id, converted to [size_t], is not
    below the number of entries of [cudaIds], then for every argument: with
    [nonPeerDevIds] empty nothing is compared and the answer is [true];
    with an entry in [nonPeerDevIds] the comparison reads past the end of
    the array. *)
Theorem hasPeerToPeerCopy_reads_past_cudaIds (m : Machine) (p : N) :
  (N.of_nat (length (cudaIds (this m))) ≤ to_size_t (cudaId (this m)))%N →
  hasPeerToPeerCopy p m =
    (match nonPeerDevIds (this m) with
     | [] => Ok true
     | _ :: _ => Undefined
     end, m).
Proof.
  intros Hlen. unfold hasPeerToPeerCopy. unfold bind at 1. unfold field at 1.
  cbn. destruct (nonPeerDevIds (this m)) as [|y v] eqn:Hv.
  - by rewrite (bind_Ok _ _ _ _ _ (requiresCopy_nothing_denied m _ Hv)).
  - rewrite (bind_Undefined_aux _ _ m m); [done|].
    apply requiresCopy_unread; [|by rewrite Hv]. unfold array_read.
    destruct (N.ltb_spec (to_size_t (cudaId (this m)))
                (N.of_nat (length (cudaIds (this m))))); [lia|done].
Qed.

Lemma hasPeerToPeerCopy_reads_past_cudaIds_witness :
  hasPeerToPeerCopy 0 on_gpu2_initialized = (Undefined, on_gpu2_initialized) ∧
  hasPeerToPeerCopy 0 on_gpu2_with_peers = (Ok true, on_gpu2_with_peers).
Proof.
  split.
  - apply (hasPeerToPeerCopy_reads_past_cudaIds on_gpu2_initialized 0).
    vm_compute. discriminate.
  - apply (hasPeerToPeerCopy_reads_past_cudaIds on_gpu2_with_peers 0).
    vm_compute. discriminate.
Defined.

(** X10.  [autoCopy] of data whose pipeline id is not below the number of
    entries of [cudaIds] issues no copy and leaves the task as it was: with
    [nonPeerDevIds] empty it returns [false] without reading the array;
    with an entry in [nonPeerDevIds] it reads past the end of the array. *)
Theorem autoCopy_pipeline_out_of_range (m : Machine) (sizeofV : N)
    (destination : devptr) (data : MemoryData) (numElems : Z) :
  (N.of_nat (length (cudaIds (this m))) ≤ getPipelineId data)%N →
  autoCopy sizeofV destination data numElems m =
    (match nonPeerDevIds (this m) with
     | [] => Ok false
     | _ :: _ => Undefined
     end, m).
Proof.
  intros Hlen. unfold autoCopy, requiresCopy_data.
  destruct (nonPeerDevIds (this m)) as [|y v] eqn:Hv.
  - by rewrite (bind_Ok _ _ _ _ _ (requiresCopy_nothing_denied m _ Hv)).
  - rewrite (bind_Undefined_aux _ _ m m); [done|].
    apply requiresCopy_unread; [|by rewrite Hv]. unfold array_read.
    destruct (N.ltb_spec (getPipelineId data)
                (N.of_nat (length (cudaIds (this m))))); [lia|done].
Qed.

Lemma autoCopy_pipeline_out_of_range_witness :
  autoCopy 4 100 {| getPipelineId := 2; get_ := 200 |} 8
    (start task_on_gpu0_without_peer1)
  = (Undefined, start task_on_gpu0_without_peer1) ∧
  autoCopy 4 100 {| getPipelineId := 2; get_ := 200 |} 8 on_gpu2_with_peers
  = (Ok false, on_gpu2_with_peers).
Proof.
  split.
  - apply (autoCopy_pipeline_out_of_range (start task_on_gpu0_without_peer1)).
    vm_compute. discriminate.
  - apply (autoCopy_pipeline_out_of_range on_gpu2_with_peers).
    vm_compute. discriminate.
Defined.

Lemma probe_loop_overrun (rt : CudaRuntime) (n : nat) :
  ∀ (i : N) (m : Machine),
    N.to_nat i ≤ length (cudaIds (this m)) →
    length (cudaIds (this m)) < N.to_nat i + n →
    (probe_loop rt i n m).1 = Undefined.
Proof.
  induction n as [|n IH]; intros i m Hle Hlt; [lia|]. cbn [probe_loop].
  destruct (array_read (cudaIds (this m)) i) as [peer|] eqn:E.
  - rewrite (bind_Ok _ _ _ _ _ (probe_step rt m i peer E)).
    rewrite array_read_lookup in E. apply lookup_lt_Some in E.
    apply IH; cbn; lia.
  - rewrite (bind_Undefined_aux _ _ m m); [done|].
    unfold probe, bind, field. by rewrite E.
Qed.

(** X11.  With the flag on and the selected id in range, a task whose
    [numGpus] exceeds the number of entries of [cudaIds] makes
    [initialize] read past the end of the array. *)
Theorem initialize_numGpus_beyond_cudaIds (rt : CudaRuntime) (m : Machine)
    (id : Z) :
  autoEnablePeerAccess (this m) = true →
  array_read (cudaIds (this m)) (pipelineId (this m)) = Some id →
  (id < deviceCount rt)%Z →
  length (cudaIds (this m)) < N.to_nat (numGpus (this m)) →
  (initialize rt m).1 = Undefined.
Proof.
  intros Hflag Hid Hlt Hlen. destruct m as [t tr]. cbn in *.
  unfold initialize, HTGS_ASSERT.
  unfold bind at 1 2 3 4 5 6 7 8 9 10. unfold field, update, call, modify.
  cbn. rewrite Hid. cbn.
  destruct (Z.ltb_spec id (deviceCount rt)) as [_|?]; [|lia]. cbn.
  rewrite Hflag. unfold bind. cbn.
  match goal with
  | |- context [probe_loop rt ?i ?n ?s] =>
      pose proof (probe_loop_overrun rt n i s) as H;
      destruct (probe_loop rt i n s) as [o s']
  end.
  cbn in H. rewrite H by lia. done.
Qed.

Lemma initialize_numGpus_beyond_cudaIds_witness :
  (initialize two_gpus_no_peer_access (start task_claiming_three_gpus)).1
  = Undefined.
Proof.
  apply (initialize_numGpus_beyond_cudaIds two_gpus_no_peer_access
           (start task_claiming_three_gpus) 0).
  - reflexivity.
  - reflexivity.
  - reflexivity.
  - vm_compute. lia.
Defined.

(** X12.  A task's life in order: after [initialize] has returned,
    [syncStream] synchronizes and [shutdown] destroys the very stream that
    [initialize] created, and [shutdown] runs the [shutdownCuda] hook
    before it destroys the stream. *)
Theorem lifecycle_uses_created_stream (rt : CudaRuntime) (t : ICudaTask)
    (id : Z) :
  array_read (cudaIds t) (pipelineId t) = Some id →
  (id < deviceCount rt)%Z →
  N.to_nat (numGpus t) ≤ length (cudaIds t) →
  ∃ m',
    initialize rt (start t) = (Ok tt, m') ∧
    (as_step (initialize rt) ;; syncStream ;; shutdown) (born t) =
      (Ok tt,
       {| task := this m';
          calls := (earlier <$> trace m')
                     ++ [cudaStreamSynchronize (newStream rt);
                         shutdownCuda;
                         cudaStreamDestroy (newStream rt)] |}).
Proof.
  intros Hid Hlt Hlen. eexists. split.
  { by apply (initialize_run rt (start t) id). }
  unfold bind at 1. unfold as_step. cbn [born task calls].
  rewrite (initialize_run rt (start t) id) by done.
  cbn. unfold syncStream, shutdown, bind, get, lifecycle_call, modify. cbn.
  by rewrite <- !app_assoc.
Qed.

Lemma lifecycle_uses_created_stream_witness :
  ∃ m',
    initialize four_gpus (start task_over_gpus_2_3) = (Ok tt, m') ∧
    (as_step (initialize four_gpus) ;; syncStream ;; shutdown)
      (born task_over_gpus_2_3) =
      (Ok tt,
       {| task := this m';
          calls := (earlier <$> trace m')
                     ++ [cudaStreamSynchronize (newStream four_gpus);
                         shutdownCuda;
                         cudaStreamDestroy (newStream four_gpus)] |}).
Proof.
  apply (lifecycle_uses_created_stream four_gpus task_over_gpus_2_3 2).
  - reflexivity.
  - reflexivity.
  - vm_compute. lia.
Defined.

(** ** The task graph: further properties *)

Lemma never_throws {S A} (m : M S A) s what s' :
  throws_only (fun _ => False) m → m s ≠ (Throw what, s').
Proof. intros Hm H. apply (Hm s what). by rewrite H. Qed.

Lemma bind_inv_Throw {S A B} (m : M S A) (k : A -> M S B) s what s'' :
  bind m k s = (Throw what, s'') →
  m s = (Throw what, s'') ∨
  ∃ a s', m s = (Ok a, s') ∧ k a s' = (Throw what, s'').
Proof.
  unfold bind. destruct (m s) as [[a|what'|] s'] eqn:E; try discriminate.
  - intros H. right. by exists a, s'.
  - intros [= <- <-]. by left.
Qed.

(** What a successful [MemoryEdge::applyEdge] changed, and what it left. *)
Lemma MemoryEdge_applyEdge_frame_aux e graph w w' :
  MemoryEdge_applyEdge e graph w = (Ok tt, w') →
  ∃ ga ta ma t type gc rc,
    graph = Some ga ∧ getMemoryTask e = Some ta ∧
    memoryManager e = Some ma ∧ tasks w !! ta = Some t ∧
    connectors w !! gc = None ∧ connectors w !! rc = None ∧
    tasks w' =
      <[ta := attachMemoryEdge t (memoryEdgeName e)
                (Some gc) (Some rc) type]> (tasks w) ∧
    (∀ c, c ≠ gc → c ≠ rc → connectors w' !! c = connectors w !! c) ∧
    (∀ ga', ga' ≠ ga → graphs w' !! ga' = graphs w !! ga') ∧
    (∀ a, a ≠ ma → taskManager_of w' ga a = taskManager_of w ga a) ∧
    is_Some (taskManager_of w' ga ma) ∧
    taskCopyMap <$> graphs w' !! ga = taskCopyMap <$> graphs w !! ga.
Proof.
  intros H. unfold MemoryEdge_applyEdge in H.
  apply bind_inv_Ok in H as (t & w1 & H1 & H).
  apply deref_inv_Ok in H1 as [-> (ta & Hta & Ht)].
  destruct (hasMemoryEdge t (memoryEdgeName e)) eqn:Hhas; [discriminate|].
  apply bind_inv_Ok in H as (g & w1 & H1 & H).
  apply deref_inv_Ok in H1 as [-> (ga & -> & Hg)].
  destruct (hasTask g (getMemoryTask e)) eqn:HhasTask; [|discriminate].
  cbn [negb] in H.
  apply bind_inv_Ok in H as (r & w1 & H1 & H).
  apply getTaskManager_inv_Ok in H1
    as (? & ma & ? & [= <-] & Hma & Hg' & -> & ->).
  rewrite Hg in Hg'. injection Hg' as <-.
  apply bind_inv_Ok in H as (gc & w1 & H1 & H).
  rewrite new_Connector_run in H1. injection H1 as <- <-.
  apply bind_inv_Ok in H as (rc & w1 & H1 & H).
  rewrite new_Connector_run in H1. injection H1 as <- <-.
  apply bind_inv_Ok in H as (tm & w1 & H1 & H).
  apply read_TaskManager_inv_Ok in H1 as [-> Htm].
  set (gc := fresh (dom (connectors w))) in *.
  set (rc := fresh (dom (<[gc := Connector_new]> (connectors w)))) in *.
  assert (Hgc : connectors w !! gc = None) by apply fresh_connector.
  assert (Hrc : <[gc := Connector_new]> (connectors w) !! rc = None).
  { apply not_elem_of_dom, is_fresh. }
  assert (Hne : gc ≠ rc).
  { intros <-. by rewrite lookup_insert_eq in Hrc. }
  rewrite lookup_insert_ne in Hrc by done.
  unfold taskManager_of in Htm. cbn in Htm.
  rewrite lookup_insert_eq in Htm. cbn in Htm.
  rewrite lookup_insert_eq in Htm. injection Htm as <-.
  case_bool_decide as Hin.
  { unfold bind, release_Connector, modify, throw in H. discriminate. }
  case_bool_decide as Hout.
  { unfold bind, release_Connector, modify, throw in H. discriminate. }
  apply bind_inv_Ok in H as (u & w1 & H1 & H).
  apply write_TaskManager_inv_Ok in H1 as (g1 & tm1 & Hg1 & Htm1 & ->).
  cbn in Hg1, Htm1. rewrite lookup_insert_eq in Hg1. injection Hg1 as <-.
  cbn in Htm1. rewrite lookup_insert_eq in Htm1. injection Htm1 as <-.
  apply bind_inv_Ok in H as (u' & w1 & H1 & H).
  apply write_TaskManager_inv_Ok in H1 as (g1 & tm1 & Hg1 & Htm1 & ->).
  cbn in Hg1, Htm1. rewrite lookup_insert_eq in Hg1. injection Hg1 as <-.
  cbn in Htm1. rewrite lookup_insert_eq in Htm1. injection Htm1 as <-.
  apply bind_inv_Ok in H as (u'' & w1 & H1 & H).
  apply incrementInputTaskCount_inv_Ok in H1 as (c1 & Hc1 & ->).
  cbn in Hc1. rewrite lookup_insert_ne, lookup_insert_eq in Hc1 by done.
  injection Hc1 as <-.
  apply bind_inv_Ok in H as (u''' & w1 & H1 & H).
  apply incrementInputTaskCount_inv_Ok in H1 as (c1 & Hc1 & ->).
  cbn in Hc1. rewrite lookup_insert_ne, lookup_insert_eq in Hc1 by done.
  injection Hc1 as <-.
  apply bind_inv_Ok in H as (type & w1 & H1 & H).
  apply getType_inv_Ok in H1 as [-> (ma' & Hma' & Htype)].
  rewrite Hma in Hma'. injection Hma' as <-.
  apply bind_inv_Ok in H as (ta' & w1 & H1 & H).
  apply addr_of_inv_Ok in H1 as [-> Hta'].
  rewrite Hta in Hta'. injection Hta' as <-.
  apply bind_inv_Ok in H as (t' & w1 & H1 & H).
  apply deref_inv_Ok in H1 as [-> (ta' & Hta' & Ht')].
  rewrite Hta in Hta'. injection Hta' as <-.
  cbn in Ht'. rewrite Ht in Ht'. injection Ht' as <-.
  apply modify_inv_Ok in H as ->.
  exists ga, ta, ma, t, type, gc, rc.
  split; [done|]. split; [done|]. split; [done|]. split; [done|].
  split; [done|]. split; [done|]. split; [done|].
  split.
  { intros c Hc1 Hc2. cbn. by rewrite !lookup_insert_ne. }
  split.
  { intros ga' Hga'. cbn. by rewrite !lookup_insert_ne. }
  split.
  { intros a Ha. unfold taskManager_of. cbn.
    rewrite lookup_insert_eq, Hg. cbn. by rewrite !lookup_insert_ne. }
  split.
  { unfold taskManager_of. cbn. rewrite lookup_insert_eq. cbn.
    rewrite lookup_insert_eq. by eexists. }
  cbn. by rewrite lookup_insert_eq, Hg.
Qed.

(** X14.  [MemoryEdge::applyEdge] on a graph that does not hold the task
    getting memory ends in the error "<task> must be added to the graph
    you are connecting the memory edge too.", whatever the memory manager
    is, and changes no object. *)
Theorem MemoryEdge_applyEdge_task_not_in_graph (w : World) (e : MemoryEdge)
    (ga ta : addr) (g : AnyTaskGraphConf) (t : AnyITask) :
  getMemoryTask e = Some ta → tasks w !! ta = Some t →
  hasMemoryEdge t (memoryEdgeName e) = false →
  graphs w !! ga = Some g → hasTask g (Some ta) = false →
  MemoryEdge_applyEdge e (Some ga) w = (Throw (must_be_added (getName t)), w).
Proof.
  intros Hta Ht Hhas Hg HhasTask. unfold MemoryEdge_applyEdge.
  rewrite Hta, (bind_Ok _ _ _ _ _ (deref_Some tasks w ta t Ht)), Hhas.
  rewrite (bind_Ok _ _ _ _ _ (deref_Some graphs w ga g Hg)), HhasTask.
  reflexivity.
Qed.

Lemma MemoryEdge_applyEdge_task_not_in_graph_witness :
  MemoryEdge_applyEdge edge_m_T_MM (Some 11%N) two_graphs =
    (Throw (must_be_added (getName (a_task "T" UserTask))), two_graphs).
Proof.
  apply (MemoryEdge_applyEdge_task_not_in_graph two_graphs edge_m_T_MM
           11%N 1%N graph11 (a_task "T" UserTask)).
  - reflexivity.
  - vm_compute. reflexivity.
  - vm_compute. reflexivity.
  - vm_compute. reflexivity.
  - vm_compute. reflexivity.
Defined.

Lemma release_both_fresh (w : World) :
  let gc := fresh (dom (connectors w)) in
  let rc := fresh (dom (<[gc := Connector_new]> (connectors w))) in
  set_connectors (delete gc)
    (set_connectors (delete rc)
       (set_connectors <[rc := Connector_new]>
          (set_connectors <[gc := Connector_new]> w))) = w.
Proof.
  cbn zeta. set (gc := fresh (dom (connectors w))).
  set (rc := fresh (dom (<[gc := Connector_new]> (connectors w)))).
  assert (Hgc : connectors w !! gc = None) by apply fresh_connector.
  unfold set_connectors. cbn.
  rewrite delete_insert_eq.
  rewrite (delete_id (<[gc:=Connector_new]> (connectors w)) rc)
    by apply not_elem_of_dom, is_fresh.
  rewrite delete_insert_eq, delete_id by done. by destruct w.
Qed.

(** X15.  Whenever [MemoryEdge::applyEdge] ends in an error, every task,
    connector and graph is as it was before the call: the two connectors
    made before the check are gone again, and nothing was attached. *)
Theorem MemoryEdge_applyEdge_error_changes_nothing (e : MemoryEdge)
    (graph : ptr) (w w' : World) (what : string) :
  MemoryEdge_applyEdge e graph w = (Throw what, w') → w' = w.
Proof.
  intros H. unfold MemoryEdge_applyEdge in H.
  apply bind_inv_Throw in H as [H|(t & w1 & H1 & H)].
  { by apply never_throws in H; [|apply throws_only_deref]. }
  apply deref_inv_Ok in H1 as [-> (ta & Hta & Ht)].
  destruct (hasMemoryEdge t (memoryEdgeName e)); [by injection H|].
  apply bind_inv_Throw in H as [H|(g & w1 & H1 & H)].
  { by apply never_throws in H; [|apply throws_only_deref]. }
  apply deref_inv_Ok in H1 as [-> (ga & -> & Hg)].
  destruct (hasTask g (getMemoryTask e)); cbn [negb] in H;
    [|by injection H].
  apply bind_inv_Throw in H as [H|(r & w1 & H1 & H)].
  { by apply never_throws in H; [|apply throws_only_getTaskManager]. }
  apply getTaskManager_inv_Ok in H1
    as (? & ma & ? & [= <-] & Hma & Hg' & -> & ->).
  rewrite Hg in Hg'. injection Hg' as <-.
  apply bind_inv_Throw in H as [H|(gc & w1 & H1 & H)].
  { by apply never_throws in H; [|apply throws_only_new_Connector]. }
  rewrite new_Connector_run in H1. injection H1 as <- <-.
  apply bind_inv_Throw in H as [H|(rc & w1 & H1 & H)].
  { by apply never_throws in H; [|apply throws_only_new_Connector]. }
  rewrite new_Connector_run in H1. injection H1 as <- <-.
  apply bind_inv_Throw in H as [H|(tm & w1 & H1 & H)].
  { by apply never_throws in H; [|apply throws_only_read_TaskManager]. }
  apply read_TaskManager_inv_Ok in H1 as [-> Htm].
  unfold taskManager_of in Htm. cbn in Htm.
  rewrite lookup_insert_eq in Htm. cbn in Htm.
  rewrite lookup_insert_eq in Htm. injection Htm as <-.
  assert (Hfound :
    getInputConnector (default (TaskManager_new ma) (taskManagers g !! ma))
      ≠ nullptr ∨
    getOutputConnector (default (TaskManager_new ma) (taskManagers g !! ma))
      ≠ nullptr →
    with_TaskManager ga ma g w = w).
  { intros Hconn. destruct (taskManagers g !! ma) as [tm0|] eqn:Htm0.
    - by apply (with_TaskManager_found ga ma g tm0).
    - cbn in Hconn. by destruct Hconn. }
  case_bool_decide as Hin.
  { rewrite (Hfound (or_introl Hin)) in H.
    unfold bind, release_Connector, modify, throw in H.
    injection H as _ <-. apply release_both_fresh. }
  case_bool_decide as Hout.
  { rewrite (Hfound (or_intror Hout)) in H.
    unfold bind, release_Connector, modify, throw in H.
    injection H as _ <-. apply release_both_fresh. }
  exfalso. revert H. apply never_throws. throws_only_graph.
Qed.

Lemma MemoryEdge_applyEdge_error_changes_nothing_witness :
  (MemoryEdge_applyEdge edge_n_T_MM (Some 10%N) two_graphs_m).2
  = two_graphs_m.
Proof.
  apply (MemoryEdge_applyEdge_error_changes_nothing edge_n_T_MM (Some 10%N)
           two_graphs_m _ (already_connected "T")).
  vm_compute. reflexivity.
Defined.

(** X16.  A [MemoryEdge::applyEdge] that returned normally touched only
    what the edge names: every connector that existed keeps its state;
    every task keeps its name and its kind, and every memory edge attached
    before is still attached as it was; and in every graph every task
    manager other than the memory manager's in the edge's graph is as it
    was. *)
Theorem MemoryEdge_applyEdge_frame (e : MemoryEdge) (graph : ptr)
    (w w' : World) :
  MemoryEdge_applyEdge e graph w = (Ok tt, w') →
  (∀ c x, connectors w !! c = Some x → connectors w' !! c = Some x) ∧
  (∀ a t0, tasks w !! a = Some t0 →
     ∃ t1, tasks w' !! a = Some t1 ∧ getName t1 = getName t0 ∧
           derived t1 = derived t0 ∧
           ∀ n x, memoryEdges t0 !! n = Some x →
                  memoryEdges t1 !! n = Some x) ∧
  (∀ ga' a, (Some ga', Some a) ≠ (graph, memoryManager e) →
     taskManager_of w' ga' a = taskManager_of w ga' a).
Proof.
  intros H. pose proof H as Hinv.
  apply MemoryEdge_applyEdge_inv_Ok in Hinv
    as (ga0 & ta0 & ma0 & g & t0 & _ & _ & _ & Hga0 & Hta0 & _ & _ & Ht0
        & Hhas & _).
  apply MemoryEdge_applyEdge_frame_aux in H
    as (ga & ta & ma & t & type & gc & rc & -> & Hta & Hma & Ht & Hgc & Hrc
        & Htasks & Hconn & Hgraphs & Htms & _ & _).
  rewrite Hta in Hta0. injection Hta0 as <-.
  rewrite Ht in Ht0. injection Ht0 as <-.
  split; [|split].
  - intros c x Hc. rewrite Hconn; [done| |]; intros ->; congruence.
  - intros a t0 Ha. rewrite Htasks.
    destruct (decide (a = ta)) as [->|Hne].
    + rewrite lookup_insert_eq. rewrite Ht in Ha. injection Ha as <-.
      eexists. split; [done|]. split; [done|]. split; [done|].
      intros n x Hn. cbn.
      destruct (decide (n = memoryEdgeName e)) as [->|Hn'].
      * unfold hasMemoryEdge in Hhas.
        apply bool_decide_eq_false in Hhas. destruct Hhas. by eexists.
      * by rewrite lookup_insert_ne.
    + rewrite lookup_insert_ne by done. by exists t0.
  - intros ga' a Hne. destruct (decide (ga' = ga)) as [->|Hga].
    + apply Htms. intros ->. by rewrite Hma in Hne.
    + unfold taskManager_of. by rewrite Hgraphs.
Qed.

Lemma MemoryEdge_applyEdge_frame_witness :
  (∀ c x, connectors two_graphs !! c = Some x →
          connectors two_graphs_m !! c = Some x) ∧
  (∀ a t0, tasks two_graphs !! a = Some t0 →
     ∃ t1, tasks two_graphs_m !! a = Some t1 ∧ getName t1 = getName t0 ∧
           derived t1 = derived t0 ∧
           ∀ n x, memoryEdges t0 !! n = Some x →
                  memoryEdges t1 !! n = Some x) ∧
  (∀ ga' a, (Some ga', Some a) ≠ (Some 10%N, memoryManager edge_m_T_MM) →
     taskManager_of two_graphs_m ga' a = taskManager_of two_graphs ga' a).
Proof.
  apply (MemoryEdge_applyEdge_frame edge_m_T_MM (Some 10%N) two_graphs
           two_graphs_m).
  vm_compute. reflexivity.
Defined.

(** Two memory edges that can each be applied to a world can be applied
    one after the other when they differ in the memory manager and in the
    task or the name. *)
Lemma MemoryEdge_applyEdge_second_aux e1 e2 graph w w1 w2' :
  MemoryEdge_applyEdge e1 graph w = (Ok tt, w1) →
  MemoryEdge_applyEdge e2 graph w = (Ok tt, w2') →
  memoryManager e2 ≠ memoryManager e1 →
  (getMemoryTask e2, memoryEdgeName e2)
    ≠ (getMemoryTask e1, memoryEdgeName e1) →
  ∃ w2, MemoryEdge_applyEdge e2 graph w1 = (Ok tt, w2).
Proof.
  intros H1 H2 Hmm Hne.
  apply MemoryEdge_applyEdge_inv_Ok in H2
    as (ga & ta2 & ma2 & g & t2 & type2 & _ & _ & -> & Hta2 & Hma2 & Hg & Ht2
        & Hhas2 & HhasTask2 & Hin2 & Hout2 & Htype2 & _).
  apply MemoryEdge_applyEdge_frame_aux in H1
    as (? & ta1 & ma1 & t1 & type1 & gc & rc & [= <-] & Hta1 & Hma1 & Ht1
        & _ & _ & Htasks & _ & _ & Htms & Hmgr & _).
  assert (Hma : ma2 ≠ ma1) by congruence.
  assert (Hg1 : ∃ g1, graphs w1 !! ga = Some g1).
  { destruct Hmgr as [tm Htm]. unfold taskManager_of in Htm.
    destruct (graphs w1 !! ga) as [g1|]; [by exists g1|done]. }
  destruct Hg1 as [g1 Hg1].
  assert (Htm2 : ∀ a, taskManager_of w1 ga a = taskManagers g1 !! a).
  { intros a. unfold taskManager_of. by rewrite Hg1. }
  assert (Htm : ∀ a, taskManager_of w ga a = taskManagers g !! a).
  { intros a. unfold taskManager_of. by rewrite Hg. }
  assert (Ht2' : ∃ t2', tasks w1 !! ta2 = Some t2' ∧
                        hasMemoryEdge t2' (memoryEdgeName e2) = false).
  { rewrite Htasks. destruct (decide (ta2 = ta1)) as [->|Hta].
    - rewrite lookup_insert_eq. eexists. split; [done|].
      rewrite Ht1 in Ht2. injection Ht2 as <-.
      unfold hasMemoryEdge in *. cbn.
      rewrite lookup_insert_ne; [done|]. intros Hn. apply Hne.
      by rewrite Hta1, Hta2, Hn.
    - rewrite lookup_insert_ne by done. by exists t2. }
  destruct Ht2' as (t2' & Ht2' & Hhas2').
  eapply (MemoryEdge_applyEdge_returns w1 e2 ga g1 ta2 t2' ma2 type2);
    try done.
  - unfold hasTask in *. apply bool_decide_eq_true.
    apply bool_decide_eq_true in HhasTask2.
    rewrite <- Htm2. destruct (decide (ta2 = ma1)) as [->|Hta]; [done|].
    by rewrite Htms, Htm.
  - unfold type_of in *. rewrite Htasks.
    destruct (decide (ma2 = ta1)) as [->|Hta].
    + rewrite lookup_insert_eq. by rewrite Ht1 in Htype2.
    + by rewrite lookup_insert_ne.
  - unfold inputConnector_of in *. by rewrite Htms.
  - unfold outputConnector_of in *. by rewrite Htms.
Qed.

(** X17.  Memory edges compose: when two memory edges can each be applied
    to a graph, have different memory managers, and differ in the task
    getting memory or in the edge name, then applying the second after the
    first also returns normally, and afterwards both edges are attached.
    In particular one task can take several memory edges of different
    names, and several tasks can take memory edges of one name. *)
Theorem MemoryEdge_applyEdge_two_edges (e1 e2 : MemoryEdge) (graph : ptr)
    (w w1 w2' : World) (ta1 ta2 : addr) :
  MemoryEdge_applyEdge e1 graph w = (Ok tt, w1) →
  MemoryEdge_applyEdge e2 graph w = (Ok tt, w2') →
  memoryManager e2 ≠ memoryManager e1 →
  (getMemoryTask e2, memoryEdgeName e2)
    ≠ (getMemoryTask e1, memoryEdgeName e1) →
  getMemoryTask e1 = Some ta1 → getMemoryTask e2 = Some ta2 →
  ∃ w2,
    MemoryEdge_applyEdge e2 graph w1 = (Ok tt, w2) ∧
    is_Some (memoryEdge_of w2 ta1 (memoryEdgeName e1)) ∧
    is_Some (memoryEdge_of w2 ta2 (memoryEdgeName e2)).
Proof.
  intros H1 H2 Hmm Hne Hta1 Hta2.
  destruct (MemoryEdge_applyEdge_second_aux e1 e2 graph w w1 w2'
              H1 H2 Hmm Hne) as [w2 H].
  exists w2. split; [done|].
  apply MemoryEdge_applyEdge_inv_Ok in H1
    as (? & ? & ? & ? & ? & ty1 & gc1 & rc1 & _ & Hta1' & _ & _ & _ & _ & _
        & _ & _ & _ & _ & _ & _ & _ & _ & _ & _ & Hedge1).
  rewrite Hta1 in Hta1'. injection Hta1' as <-.
  pose proof H as Hframe.
  apply MemoryEdge_applyEdge_frame_aux in Hframe
    as (? & ? & ? & t2 & type & gc & rc & _ & Hta2' & _ & Ht2 & _ & _
        & Htasks & _).
  rewrite Hta2 in Hta2'. injection Hta2' as <-.
  apply MemoryEdge_applyEdge_inv_Ok in H
    as (? & ? & ? & ? & ? & ty2 & gc2 & rc2 & _ & Hta2' & _ & _ & _ & _ & _
        & _ & _ & _ & _ & _ & _ & _ & _ & _ & _ & Hedge2).
  rewrite Hta2 in Hta2'. injection Hta2' as <-.
  split; [|by rewrite Hedge2].
  unfold memoryEdge_of in *. rewrite Htasks.
  destruct (decide (ta1 = ta2)) as [->|Hta].
  - rewrite lookup_insert_eq. cbn. rewrite Ht2 in Hedge1. cbn in Hedge1.
    rewrite lookup_insert_ne; [by rewrite Hedge1|].
    intros Hn. apply Hne. by rewrite Hta1, Hta2, Hn.
  - rewrite lookup_insert_ne by done. by rewrite Hedge1.
Qed.

Lemma MemoryEdge_applyEdge_two_edges_witness :
  ∃ w2,
    MemoryEdge_applyEdge edge_n_T_MM2 (Some 10%N)
      (MemoryEdge_applyEdge edge_m_T_MM (Some 10%N) two_managers).2
      = (Ok tt, w2) ∧
    is_Some (memoryEdge_of w2 1 (memoryEdgeName edge_m_T_MM)) ∧
    is_Some (memoryEdge_of w2 1 (memoryEdgeName edge_n_T_MM2)).
Proof.
  apply (MemoryEdge_applyEdge_two_edges edge_m_T_MM edge_n_T_MM2 (Some 10%N)
           two_managers
           (MemoryEdge_applyEdge edge_m_T_MM (Some 10%N) two_managers).2
           (MemoryEdge_applyEdge edge_n_T_MM2 (Some 10%N) two_managers).2).
  - vm_compute. reflexivity.
  - vm_compute. reflexivity.
  - discriminate.
  - discriminate.
  - reflexivity.
  - reflexivity.
Defined.

Lemma outputConnector_of_with_TaskManager ga ta g w ta' :
  graphs w !! ga = Some g →
  outputConnector_of (with_TaskManager ga ta g w) ga ta'
  = outputConnector_of w ga ta'.
Proof.
  intros Hg. unfold outputConnector_of, taskManager_of, with_TaskManager.
  cbn. rewrite lookup_insert_eq, Hg. cbn.
  destruct (decide (ta = ta')) as [<-|Hne].
  - rewrite lookup_insert_eq. by destruct (taskManagers g !! ta).
  - by rewrite lookup_insert_ne.
Qed.

(** What a successful [RuleEdge::applyEdge] changed, and what it left. *)
Lemma RuleEdge_applyEdge_frame_aux e graph w w' :
  RuleEdge_applyEdge e graph w = (Ok tt, w') →
  ∃ ga ba ca c tb l,
    graph = Some ga ∧ bookkeeper e = Some ba ∧ consumer e = Some ca ∧
    tasks w !! ba = Some tb ∧ derived tb = Bookkeeper l ∧
    inputConnector_of w' ga ca = Some c ∧
    tasks w' =
      <[ba := {| getName := getName tb; memoryEdges := memoryEdges tb;
                 derived := Bookkeeper (l ++ [scheduler_for c e]) |}]>
        (tasks w) ∧
    (∀ c', c' ≠ c → connectors w' !! c' = connectors w !! c') ∧
    (∀ ga', ga' ≠ ga → graphs w' !! ga' = graphs w !! ga') ∧
    (∀ a, outputConnector_of w' ga a = outputConnector_of w ga a) ∧
    (∀ a, a ≠ ca → inputConnector_of w' ga a = inputConnector_of w ga a).
Proof.
  intros H. unfold RuleEdge_applyEdge in H.
  apply bind_inv_Ok in H as (r & w1 & H1 & H).
  apply getTaskManager_inv_Ok in H1
    as (ga & ba & g & -> & Hba & Hg & _ & ->).
  apply bind_inv_Ok in H as (r' & w1 & H1 & H).
  apply getTaskManager_inv_Ok in H1
    as (? & ca & g1 & [= <-] & Hca & Hg1 & -> & ->).
  apply bind_inv_Ok in H as (tm & w1 & H1 & H).
  apply read_TaskManager_inv_Ok in H1 as [-> Htm]. cbn in Htm.
  set (w2 := with_TaskManager ga ca g1 (with_TaskManager ga ba g w)) in *.
  assert (Hw2in : ∀ a, inputConnector_of w2 ga a = inputConnector_of w ga a).
  { intros a. unfold w2.
    rewrite (inputConnector_of_with_TaskManager ga ca g1 _ a Hg1).
    apply (inputConnector_of_with_TaskManager ga ba g w a Hg). }
  assert (Hw2out :
    ∀ a, outputConnector_of w2 ga a = outputConnector_of w ga a).
  { intros a. unfold w2.
    rewrite (outputConnector_of_with_TaskManager ga ca g1 _ a Hg1).
    apply (outputConnector_of_with_TaskManager ga ba g w a Hg). }
  assert (Hw2g : ∀ ga', ga' ≠ ga → graphs w2 !! ga' = graphs w !! ga').
  { intros ga' Hne. unfold w2, with_TaskManager. cbn.
    by rewrite !lookup_insert_ne. }
  assert (Hw2c : connectors w2 = connectors w) by reflexivity.
  assert (Hw2t : tasks w2 = tasks w) by reflexivity.
  clearbody w2. clear Hg1 g1 Htm.
  apply bind_inv_Ok in H as (c & w3 & H1 & H).
  assert (Hw3 :
    tasks w3 = tasks w ∧ graphs w3 = graphs w2 ∧
    ∀ c', c' ≠ c → connectors w3 !! c' = connectors w !! c').
  { destruct (getInputConnector tm) as [c0|].
    - apply ret_inv_Ok in H1 as [-> ->]. by rewrite Hw2c.
    - rewrite new_Connector_run in H1. injection H1 as <- <-. cbn.
      rewrite Hw2c. split; [done|]. split; [done|].
      intros c' Hc'. by rewrite lookup_insert_ne. }
  clear H1 tm. destruct Hw3 as (Hw3t & Hw3g & Hw3c).
  apply bind_inv_Ok in H as (u & w4 & H1 & H).
  apply incrementInputTaskCount_inv_Ok in H1 as (cc & Hcc & ->).
  apply bind_inv_Ok in H as (u' & w5 & H1 & H).
  apply write_TaskManager_inv_Ok in H1 as (g4 & tm4 & Hg4 & Htm4 & ->).
  cbn in Hg4, Htm4. rewrite Hw3g in Hg4.
  apply addRuleScheduler_inv_Ok in H as (ba' & tb & l & Hba' & Ht & Hl & ->).
  rewrite Hba in Hba'. injection Hba' as <-. cbn in Ht.
  rewrite Hw3t in Ht.
  exists ga, ba, ca, c, tb, l.
  split; [done|]. split; [done|]. split; [done|]. split; [done|].
  split; [done|].
  split.
  { unfold inputConnector_of, taskManager_of. cbn.
    rewrite lookup_insert_eq. cbn. by rewrite lookup_insert_eq. }
  split. { cbn. by rewrite Hw3t. }
  split.
  { intros c' Hc'. cbn. rewrite lookup_insert_ne by done. by apply Hw3c. }
  split.
  { intros ga' Hga'. cbn. rewrite lookup_insert_ne by done.
    rewrite Hw3g. by apply Hw2g. }
  split.
  - intros a. rewrite <- Hw2out.
    unfold outputConnector_of, taskManager_of. cbn.
    rewrite lookup_insert_eq, Hg4. cbn.
    destruct (decide (a = ca)) as [->|Hne].
    + rewrite lookup_insert_eq, Htm4. done.
    + by rewrite lookup_insert_ne.
  - intros a Hne. rewrite <- Hw2in.
    unfold inputConnector_of, taskManager_of. cbn.
    rewrite lookup_insert_eq, Hg4. cbn.
    by rewrite lookup_insert_ne.
Qed.

(** X18.  A [RuleEdge::applyEdge] that returned normally touched only what
    the edge names: every connector other than the consumer's input
    connector keeps its state; every task keeps its name and its memory
    edges, and every task other than the bookkeeper is as it was; no output
    connector of any task manager changed, and no input connector other
    than the consumer's. *)
Theorem RuleEdge_applyEdge_frame (e : RuleEdge) (ga ca : addr)
    (w w' : World) :
  consumer e = Some ca →
  RuleEdge_applyEdge e (Some ga) w = (Ok tt, w') →
  (∀ c' x, connectors w !! c' = Some x →
           inputConnector_of w' ga ca ≠ Some c' →
           connectors w' !! c' = Some x) ∧
  (∀ a t0, tasks w !! a = Some t0 →
     ∃ t1, tasks w' !! a = Some t1 ∧ getName t1 = getName t0 ∧
           memoryEdges t1 = memoryEdges t0 ∧
           (Some a ≠ bookkeeper e → t1 = t0)) ∧
  (∀ a, outputConnector_of w' ga a = outputConnector_of w ga a) ∧
  (∀ a, a ≠ ca → inputConnector_of w' ga a = inputConnector_of w ga a) ∧
  (∀ ga', ga' ≠ ga → graphs w' !! ga' = graphs w !! ga').
Proof.
  intros Hca H.
  apply RuleEdge_applyEdge_frame_aux in H
    as (? & ba & ? & c & tb & l & [= <-] & Hba & Hca' & Htb & Hl & Hin
        & Htasks & Hconn & Hgraphs & Hout & Hins).
  rewrite Hca in Hca'. injection Hca' as <-.
  split; [|split; [|done]].
  - intros c' x Hc' Hne. rewrite Hconn; [done|]. intros ->.
    by rewrite Hin in Hne.
  - intros a t0 Ha. rewrite Htasks.
    destruct (decide (a = ba)) as [->|Hne].
    + rewrite lookup_insert_eq. rewrite Htb in Ha. injection Ha as <-.
      eexists. split; [done|]. split; [done|]. split; [done|].
      intros Hne. by rewrite Hba in Hne.
    + rewrite lookup_insert_ne by done. by exists t0.
Qed.

(** [two_graphs] after one rule edge from [BK] into [T]. *)
Lemma RuleEdge_applyEdge_frame_witness :
  let w' := (RuleEdge_applyEdge rule_edge_BK_T (Some 10%N) two_graphs).2 in
  (∀ c' x, connectors two_graphs !! c' = Some x →
           inputConnector_of w' 10 1 ≠ Some c' →
           connectors w' !! c' = Some x) ∧
  (∀ a t0, tasks two_graphs !! a = Some t0 →
     ∃ t1, tasks w' !! a = Some t1 ∧ getName t1 = getName t0 ∧
           memoryEdges t1 = memoryEdges t0 ∧
           (Some a ≠ bookkeeper rule_edge_BK_T → t1 = t0)) ∧
  (∀ a, outputConnector_of w' 10 a = outputConnector_of two_graphs 10 a) ∧
  (∀ a, a ≠ 1%N →
        inputConnector_of w' 10 a = inputConnector_of two_graphs 10 a) ∧
  (∀ ga', ga' ≠ 10%N → graphs w' !! ga' = graphs two_graphs !! ga').
Proof.
  apply (RuleEdge_applyEdge_frame rule_edge_BK_T 10%N 1%N two_graphs).
  - reflexivity.
  - vm_compute. reflexivity.
Defined.

(** X20.  The "already connected" check of [MemoryEdge::applyEdge] looks at
    the connectors only: once a rule edge has made a task its consumer in a
    graph, a memory edge that names that task as its memory manager ends in
    an error on that graph. *)
Theorem MemoryEdge_applyEdge_after_rule_edge (re : RuleEdge)
    (me : MemoryEdge) (graph : ptr) (w w1 : World) (ta : addr)
    (t : AnyITask) :
  RuleEdge_applyEdge re graph w = (Ok tt, w1) →
  memoryManager me = consumer re →
  getMemoryTask me = Some ta → tasks w1 !! ta = Some t →
  ∃ what, (MemoryEdge_applyEdge me graph w1).1 = Throw what.
Proof.
  intros H Hmm Hta Ht.
  apply RuleEdge_applyEdge_inv_Ok in H
    as (ga & ba & ca & c & -> & _ & Hca & _ & Hin & _).
  unfold inputConnector_of, taskManager_of in Hin.
  destruct (graphs w1 !! ga) as [g1|] eqn:Hg1; [|done]. cbn in Hin.
  destruct (taskManagers g1 !! ca) as [tm1|] eqn:Htm1; [|done].
  cbn in Hin.
  destruct (MemoryEdge_applyEdge_connected w1 me ga g1 ta t ca tm1)
    as (what & Hwhat & _); try done.
  - congruence.
  - left. by rewrite Hin.
  - by exists what.
Qed.

Lemma MemoryEdge_applyEdge_after_rule_edge_witness :
  ∃ what,
    (MemoryEdge_applyEdge edge_m_T_MM (Some 10%N)
       (RuleEdge_applyEdge rule_edge_BK_MM (Some 10%N) two_graphs).2).1
    = Throw what.
Proof.
  apply (MemoryEdge_applyEdge_after_rule_edge rule_edge_BK_MM edge_m_T_MM
           (Some 10%N) two_graphs _ 1%N (a_task "T" UserTask)).
  - vm_compute. reflexivity.
  - reflexivity.
  - reflexivity.
  - vm_compute. reflexivity.
Defined.

(** X21.  A rule edge into a task that is already attached as a memory
    manager makes no new connector: the connectors after the call are the
    connectors before it, and all but one are as they were.  That one is
    the manager's release connector: it stays the manager's input, it is
    the output of the rule scheduler appended to the edge's bookkeeper, and
    it then counts two producers. *)
Theorem RuleEdge_applyEdge_into_memory_manager (me : MemoryEdge)
    (re : RuleEdge) (graph : ptr) (w w1 w2 : World) :
  MemoryEdge_applyEdge me graph w = (Ok tt, w1) →
  consumer re = memoryManager me →
  RuleEdge_applyEdge re graph w1 = (Ok tt, w2) →
  ∃ ga ma ta attached rc ba l,
    graph = Some ga ∧ memoryManager me = Some ma ∧
    getMemoryTask me = Some ta ∧
    memoryEdge_of w1 ta (memoryEdgeName me) = Some attached ∧
    releaseMemoryConnector attached = Some rc ∧
    inputConnector_of w2 ga ma = Some rc ∧
    producerCount_of w2 rc = Some 2%N ∧
    dom (connectors w2) = dom (connectors w1) ∧
    (∀ c', c' ≠ rc → connectors w2 !! c' = connectors w1 !! c') ∧
    bookkeeper re = Some ba ∧
    ruleSchedulers_of w1 ba = Some l ∧
    ruleSchedulers_of w2 ba =
      Some (l ++ [{| rs_rule := rule re; rs_outputConnector := Some rc |}]).
Proof.
  intros H1 Hc H2.
  apply MemoryEdge_applyEdge_inv_Ok in H1
    as (ga & ta & ma & g & t & type & gc & rc & -> & Hta & Hma & _ & _ & _
        & _ & _ & _ & _ & _ & _ & _ & Hin1 & _ & _ & Hcount1 & Hedge).
  pose proof H2 as Hframe.
  apply RuleEdge_applyEdge_frame_aux in Hframe
    as (_ & ba' & _ & _ & tb & l & _ & Hba' & _ & Htb & Hl & _).
  apply RuleEdge_applyEdge_inv_Ok_connectors in H2
    as (? & ba & ca & c & [= <-] & Hba & Hca & Hsel & Hin2 & Hcount2 & Hsched
        & cc & Hconn & Hcc).
  assert (ca = ma) as -> by congruence.
  assert (ba' = ba) as -> by congruence.
  rewrite Hin1 in Hsel, Hcc. subst c. rewrite Hcount1 in Hcount2.
  assert (Hl1 : ruleSchedulers_of w1 ba = Some l).
  { unfold ruleSchedulers_of. rewrite Htb. cbn. by rewrite Hl. }
  exists ga, ma, ta. eexists. exists rc, ba, l.
  split; [done|]. split; [done|]. split; [done|]. split; [exact Hedge|].
  split; [done|]. split; [done|]. split; [done|].
  split. { rewrite Hconn. apply dom_insert_lookup_L. by eexists. }
  split. { intros c' Hc'. rewrite Hconn. by rewrite lookup_insert_ne. }
  split; [done|]. split; [done|].
  rewrite Hsched, Hl1. cbn. by rewrite decide_True.
Qed.

Lemma RuleEdge_applyEdge_into_memory_manager_witness :
  ∃ ga ma ta attached rc ba l,
    Some 10%N = Some ga ∧ memoryManager edge_m_T_MM = Some ma ∧
    getMemoryTask edge_m_T_MM = Some ta ∧
    memoryEdge_of two_graphs_m ta (memoryEdgeName edge_m_T_MM)
      = Some attached ∧
    releaseMemoryConnector attached = Some rc ∧
    inputConnector_of two_graphs_m_rule ga ma = Some rc ∧
    producerCount_of two_graphs_m_rule rc = Some 2%N ∧
    dom (connectors two_graphs_m_rule) = dom (connectors two_graphs_m) ∧
    (∀ c', c' ≠ rc →
           connectors two_graphs_m_rule !! c' = connectors two_graphs_m !! c') ∧
    bookkeeper rule_edge_BK_MM = Some ba ∧
    ruleSchedulers_of two_graphs_m ba = Some l ∧
    ruleSchedulers_of two_graphs_m_rule ba =
      Some (l ++ [{| rs_rule := rule rule_edge_BK_MM;
                     rs_outputConnector := Some rc |}]).
Proof.
  apply (RuleEdge_applyEdge_into_memory_manager edge_m_T_MM rule_edge_BK_MM
           (Some 10%N) two_graphs two_graphs_m two_graphs_m_rule).
  - vm_compute. reflexivity.
  - reflexivity.
  - vm_compute. reflexivity.
Defined.

(** X23.  The rule travels with the copy: when the copy of a rule edge is
    applied, the rule scheduler appended to the copy's bookkeeper holds the
    rule of the original edge. *)
Theorem RuleEdge_copy_then_applyEdge (e e' : RuleEdge) (graph graph' : ptr)
    (w w0 w' : World) :
  RuleEdge_copy e graph w = (Ok e', w0) →
  RuleEdge_applyEdge e' graph' w0 = (Ok tt, w') →
  ∃ b c l,
    bookkeeper e' = Some b ∧
    ruleSchedulers_of w b = Some l ∧
    ruleSchedulers_of w' b =
      Some (l ++ [{| rs_rule := rule e; rs_outputConnector := Some c |}]).
Proof.
  intros Hcopy Happly.
  unfold RuleEdge_copy in Hcopy.
  apply bind_inv_Ok in Hcopy as (g & w1 & Hg & Hcopy).
  apply deref_inv_Ok in Hg as [-> _].
  apply ret_inv_Ok in Hcopy as [-> ->].
  pose proof Happly as Hframe.
  apply RuleEdge_applyEdge_frame_aux in Hframe
    as (ga & ba & ca & c & tb & l & _ & Hba & _ & Htb & Hl & _ & Htasks & _).
  exists ba, c, l. split; [done|].
  unfold ruleSchedulers_of. rewrite Htasks, Htb, lookup_insert_eq. cbn.
  by rewrite Hl.
Qed.

Lemma RuleEdge_copy_then_applyEdge_witness :
  ∃ b c l,
    bookkeeper rule_edge_BK_T = Some b ∧
    ruleSchedulers_of two_graphs_and_clone_map b = Some l ∧
    ruleSchedulers_of
      (RuleEdge_applyEdge rule_edge_BK_T (Some 10%N)
         two_graphs_and_clone_map).2 b =
      Some (l ++ [{| rs_rule := rule rule_edge_of_originals;
                     rs_outputConnector := Some c |}]).
Proof.
  apply (RuleEdge_copy_then_applyEdge rule_edge_of_originals rule_edge_BK_T
           (Some 12%N) (Some 10%N) two_graphs_and_clone_map
           two_graphs_and_clone_map).
  - vm_compute. reflexivity.
  - vm_compute. reflexivity.
Defined.
